(** * Interview: conversation orchestration and audio playback

    A shallow embedding of the two stateful parts of the repository:

    - [services/audio.ts]: [decodeBase64], [decodeAudioData] and the
      [AudioService] class (one [currentSource] field, [playAudio], [stop]);
    - [components/InterviewSession]: the React component that owns the
      transcript ([messages]), the [isLoading] and [isPlaying] flags, and the
      handlers [handlePlayAudio] and [handleSendMessage].

    JavaScript runs these handlers on one thread; an [async] function runs
    until its next [await] and is resumed later.  Every handler is therefore
    written as a state transformer that returns the awaits it left
    outstanding, each with its continuation. *)

From Stdlib Require Import ZArith QArith Ascii String List Bool Lia.
From Stdlib.Strings Require Import Byte.
From stdpp Require Import base list strings pretty.
Import ListNotations.

Set Warnings "-register-all".

Open Scope string_scope.
Open Scope list_scope.
Open Scope Z_scope.

(* ================================================================== *)
(** * JavaScript values used by the code *)
(* ================================================================== *)

Module Js.

(** Strings are sequences of code units; the model keeps the code units
    in the range U+0000..U+00FF. *)

(** White space removed by [String.prototype.trim] (in that range):
    TAB, LF, VT, FF, CR, SPACE and NBSP. *)
Definition isWhiteSpace (c : ascii) : bool :=
  let n := N_of_ascii c in
  ((9 <=? n) && (n <=? 13) || (n =? 32) || (n =? 160))%N.

Fixpoint dropWhile {A} (p : A -> bool) (l : list A) : list A :=
  match l with
  | [] => []
  | x :: l' => if p x then dropWhile p l' else l
  end.

(** [s.trim()] *)
Definition trim (s : string) : string :=
  string_of_list_ascii
    (rev (dropWhile isWhiteSpace
            (rev (dropWhile isWhiteSpace (list_ascii_of_string s))))).

(** Truthiness of a string: only the empty string is falsy. *)
Definition truthy (s : string) : bool :=
  match s with EmptyString => false | String _ _ => true end.

(** [n.toString()] for an integer-valued number. *)
Definition toString (n : Z) : string := pretty n.

(** Exceptions: the [TypeError] of a property access on [undefined], and
    any other error, by its message. *)
Inductive Error : Type :=
| TypeError
| OtherError (message : string).

(** State of a promise when an [await] on it resumes. *)
Inductive Settled (A : Type) : Type :=
| Fulfilled (a : A)
| Rejected (e : Error).
Arguments Fulfilled {A} a.
Arguments Rejected {A} e.

End Js.

(* ================================================================== *)
(** * Platform functions called by [services/audio.ts] *)
(* ================================================================== *)

Module Platform.

(** A [Uint8Array] is a list of bytes. *)
Definition Uint8Array := list byte.

Definition byteZ (b : byte) : Z := Z.of_N (Byte.to_N b).

(** The character with code [z mod 256]. *)
Definition charOf (z : Z) : ascii := ascii_of_N (Z.to_N (z mod 256)).

(** ** [atob]: forgiving base64 decoding *)

Definition isAsciiWhitespace (c : ascii) : bool :=
  let n := N_of_ascii c in
  ((n =? 9) || (n =? 10) || (n =? 12) || (n =? 13) || (n =? 32))%N.

(** Value of one character of the base64 alphabet. *)
Definition sextet (c : ascii) : option Z :=
  let n := Z.of_N (N_of_ascii c) in
  if (65 <=? n) && (n <=? 90) then Some (n - 65)
  else if (97 <=? n) && (n <=? 122) then Some (n - 71)
  else if (48 <=? n) && (n <=? 57) then Some (n + 4)
  else if n =? 43 then Some 62
  else if n =? 47 then Some 63
  else None.

Fixpoint sextets (l : list ascii) : option (list Z) :=
  match l with
  | [] => Some []
  | c :: l' =>
      match sextet c, sextets l' with
      | Some v, Some vs => Some (v :: vs)
      | _, _ => None
      end
  end.

(** Groups of four sextets give three characters; a last group of three
    gives two and a last group of two gives one. *)
Fixpoint octets (l : list Z) : list ascii :=
  match l with
  | a :: b :: c :: d :: rest =>
      let n := a * 262144 + b * 4096 + c * 64 + d in
      charOf (n / 65536) :: charOf (n / 256) :: charOf n :: octets rest
  | [a; b; c] =>
      let n := (a * 4096 + b * 64 + c) / 4 in
      [charOf (n / 256); charOf n]
  | [a; b] => [charOf ((a * 64 + b) / 16)]
  | _ => []
  end.

Definition isEq (c : ascii) : bool := (N_of_ascii c =? 61)%N.

(** Removes one or two trailing [=] when the length is a multiple of 4. *)
Definition stripPadding (l : list ascii) : list ascii :=
  if (Z.of_nat (length l) mod 4 =? 0) then
    match rev l with
    | c1 :: c2 :: r =>
        if isEq c1 then (if isEq c2 then rev r else rev (c2 :: r)) else l
    | [c1] => if isEq c1 then [] else l
    | [] => l
    end
  else l.

(** [atob(s)]: the decoded binary string, one character per byte, or
    [None] where the platform throws [InvalidCharacterError]. *)
Definition atob (s : string) : option string :=
  let data := List.filter (fun c => negb (isAsciiWhitespace c))
                (list_ascii_of_string s) in
  let data := stripPadding data in
  if (Z.of_nat (length data) mod 4 =? 1) then None
  else option_map (fun l => string_of_list_ascii (octets l)) (sextets data).

End Platform.

(* ================================================================== *)
(** * [services/audio.ts]: decoding *)
(* ================================================================== *)

Module Audio.
Import Platform.

(** [decodeBase64]: [atob], then [bytes[i] = binaryString.charCodeAt(i)]
    for every position.  [atob] throws on a string that is not
    base64. *)
Definition decodeBase64 (base64 : string) : option Uint8Array :=
  match atob base64 with
  | None => None
  | Some binaryString =>
      Some (map byte_of_ascii (list_ascii_of_string binaryString))
  end.

(** Element of an [Int16Array] view: two bytes, low byte first (the
    byte order of the platforms the code runs on), read as a signed
    16-bit integer. *)
Definition int16 (lo hi : byte) : Z :=
  let u := byteZ lo + 256 * byteZ hi in
  if u <? 32768 then u else u - 65536.

(** [new Int16Array(data.buffer)]: throws [RangeError] when the byte
    length is odd. *)
Fixpoint Int16Array (data : Uint8Array) : option (list Z) :=
  match data with
  | [] => Some []
  | [_] => None
  | lo :: hi :: rest =>
      match Int16Array rest with
      | Some l => Some (int16 lo hi :: l)
      | None => None
      end
  end.

(** An [AudioBuffer]: its sample rate and one list of samples per
    channel.  A sample is the quotient of a 16-bit integer by 32768;
    such a quotient is a binary32 number, so the rational is the stored
    value. *)
Record AudioBuffer : Type := {
  sampleRate : Z;
  channelData : list (list Q)
}.

(** [ctx.createBuffer(numChannels, frameCount, sampleRate)]: channels
    of [frameCount] zeros.  The platform throws [NotSupportedError]
    ([None]) for a buffer of no channels or of no frames; the rate
    24000 that the code passes is one that every platform supports. *)
Definition createBuffer (numChannels frameCount : nat) (rate : Z)
  : option AudioBuffer :=
  if ((numChannels =? 0) || (frameCount =? 0))%nat then None
  else Some {| sampleRate := rate;
               channelData := repeat (repeat 0%Q frameCount) numChannels |}.

(** The inner loop of [decodeAudioData] on the channel
    [buffer.getChannelData(channel)]:
    [channelData[i] = dataInt16[i * numChannels + channel] / 32768.0]
    for [i] from 0 to [frameCount - 1].  A write past the end of the
    channel is ignored.  A read past the end of the typed array gives
    [undefined], whose quotient is [NaN]; with
    [frameCount = length / numChannels] this does not happen. *)
Definition fillChannel (dataInt16 : list Z) (numChannels channel : nat)
    (frameCount : nat) (channelData : list Q) : list Q :=
  fold_left
    (fun written i =>
       let sample := nth (i * numChannels + channel)%nat dataInt16 0%Z in
       <[i := (inject_Z sample / 32768)%Q]> written)
    (seq 0 frameCount) channelData.

(** [decodeAudioData(data, ctx, sampleRate, numChannels)]; [None] is a
    rejected promise: the view or the buffer could not be constructed.
    The quotient [dataInt16.length / numChannels] is the frame count
    when [numChannels] divides the length, as it does for the one
    channel the code asks for.  The samples are written into the
    channels of the buffer that was allocated. *)
Definition decodeAudioData_with (data : Uint8Array) (rate : Z)
    (numChannels : nat) : option AudioBuffer :=
  match Int16Array data with
  | None => None
  | Some dataInt16 =>
      let frameCount := (length dataInt16 / numChannels)%nat in
      match createBuffer numChannels frameCount rate with
      | None => None
      | Some buffer =>
          Some {| sampleRate := sampleRate buffer;
                  channelData :=
                    imap (fun channel allocated =>
                            fillChannel dataInt16 numChannels channel
                              frameCount allocated)
                         (channelData buffer) |}
      end
  end.

(** The call made by [playAudio], with the defaults
    [sampleRate = 24000] and [numChannels = 1]. *)
Definition decodeAudioData (data : Uint8Array) : option AudioBuffer :=
  decodeAudioData_with data 24000 1.

(** The samples of the single channel. *)
Definition samples (b : AudioBuffer) : list Q :=
  nth 0 (channelData b) [].

(** [k / 32768.0] *)
Definition normalized (k : Z) : Q := (inject_Z k / 32768)%Q.

End Audio.

(* ================================================================== *)
(** * [services/audio.ts]: the [AudioService] class *)
(* ================================================================== *)

Module AudioService.
Import Platform Audio.

(** What the browser does and the code cannot see: whether an
    [AudioContext] can be constructed, and whether a source halted by
    [stop()] later receives an [ended] event. *)
Record Env : Type := {
  deviceAvailable : bool;
  endedAfterStop : bool
}.

(** The context is constructed with [{ sampleRate: 24000 }].  A call
    [resume()] on a suspended context returns a promise that the code
    drops; it changes no field read by the service. *)
Record AudioContext : Type := { contextSampleRate : Z }.

Inductive Playback : Type :=
| Playing   (* [start()] was called, the buffer is sounding *)
| Halted    (* [stop()] was called on the node *)
| Ended.    (* the [ended] event was dispatched to the node *)

Section Service.
(** The type of the callers' completion callbacks. *)
Context {C : Type}.

(** An [AudioBufferSourceNode].  [onEnded] is the argument captured
    by the closure assigned to [source.onended]. *)
Record SourceNode : Type := {
  buffer : AudioBuffer;
  onEnded : option C;
  playback : Playback
}.

(** The service object and the nodes it created; [currentSource]
    refers to a node by its position. *)
Record State : Type := {
  audioContext : option AudioContext;
  currentSource : option nat;
  nodes : list SourceNode
}.

Definition initial : State :=
  {| audioContext := None; currentSource := None; nodes := [] |}.

Definition set_playback (p : Playback) (n : SourceNode) : SourceNode :=
  {| buffer := buffer n; onEnded := onEnded n; playback := p |}.

(** [if (onEnded) onEnded();] gives the callbacks invoked. *)
Definition invoke (cb : option C) : list C :=
  match cb with Some f => [f] | None => [] end.

(** [getContext()]; [None] when the constructor throws. *)
Definition getContext (env : Env) (s : State)
  : option (State * AudioContext) :=
  match audioContext s with
  | Some ctx => Some (s, ctx)
  | None =>
      if deviceAvailable env then
        let ctx := {| contextSampleRate := 24000 |} in
        Some ({| audioContext := Some ctx;
                 currentSource := currentSource s;
                 nodes := nodes s |}, ctx)
      else None
  end.

(** [node.stop()] as called inside [try { } catch (e) { }]: a
    sounding node is halted, any other node is left as it is. *)
Definition node_stop (n : SourceNode) : SourceNode :=
  match playback n with
  | Playing => set_playback Halted n
  | _ => n
  end.

(** [stop()] *)
Definition stop (s : State) : State :=
  match currentSource s with
  | Some i =>
      {| audioContext := audioContext s;
         currentSource := None;
         nodes := alter node_stop i (nodes s) |}
  | None => s
  end.

(** A [playAudio] call suspended at [await decodeAudioData(...)];
    [decoded] is the settled promise ([None]: rejected). *)
Record Suspension : Type := {
  ctx : AudioContext;
  decoded : option AudioBuffer;
  callback : option C
}.

(** [playAudio(base64Audio, onEnded)] up to its [await]: the new
    state, the callbacks invoked, and the suspension if the call did
    not finish in the [catch] block. *)
Definition playAudio_begin (env : Env) (base64Audio : string)
    (cb : option C) (s : State)
  : State * list C * option Suspension :=
  let s := stop s in
  match getContext env s with
  | None => (s, invoke cb, None)
  | Some (s, ctx) =>
      match decodeBase64 base64Audio with
      | None => (s, invoke cb, None)
      | Some rawBytes =>
          (s, [],
           Some {| ctx := ctx; decoded := decodeAudioData rawBytes;
                   callback := cb |})
      end
  end.

(** [playAudio] after its [await]: on a rejected decode the [catch]
    block; otherwise [createBufferSource], [buffer], [connect],
    [onended], [this.currentSource = source], [source.start()]. *)
Definition playAudio_resume (k : Suspension) (s : State)
  : State * list C :=
  match decoded k with
  | None => (s, invoke (callback k))
  | Some audioBuffer =>
      let source := {| buffer := audioBuffer; onEnded := callback k;
                       playback := Playing |} in
      ({| audioContext := audioContext s;
          currentSource := Some (length (nodes s));
          nodes := nodes s ++ [source] |}, [])
  end.

(** A [playAudio] call that is resumed before anything else runs. *)
Definition playAudio (env : Env) (base64Audio : string)
    (cb : option C) (s : State) : State * list C :=
  match playAudio_begin env base64Audio cb s with
  | (s1, fired, None) => (s1, fired)
  | (s1, fired, Some k) =>
      let '(s2, fired') := playAudio_resume k s1 in
      (s2, fired ++ fired')
  end.

(** The platform dispatches [ended] to node [i]: to a sounding node
    whose buffer has been played, or, where the platform does so, to
    a halted node.  The handler is
    [() => { this.currentSource = null; if (onEnded) onEnded(); }]. *)
Definition canEnd (env : Env) (n : SourceNode) : bool :=
  match playback n with
  | Playing => true
  | Halted => endedAfterStop env
  | Ended => false
  end.

Definition dispatchEnded (env : Env) (i : nat) (s : State)
  : State * list C :=
  match nodes s !! i with
  | Some n =>
      if canEnd env n then
        ({| audioContext := audioContext s;
            currentSource := None;
            nodes := <[i := set_playback Ended n]> (nodes s) |},
         invoke (onEnded n))
      else (s, [])
  | None => (s, [])
  end.

(** The nodes that are sounding. *)
Definition isPlayingNode (n : SourceNode) : bool :=
  match playback n with Playing => true | _ => false end.

Definition sounding (s : State) : list SourceNode :=
  List.filter isPlayingNode (nodes s).

(** ** Calls on the service, in the order in which they run *)

Inductive Call : Type :=
| Play (base64Audio : string) (cb : option C)
    (* a caller invokes [playAudio] *)
| Stop
    (* a caller invokes [stop] *)
| Resume
    (* the oldest suspended [playAudio] continues *)
| SourceEnded (i : nat).
    (* the platform dispatches [ended] to node [i] *)

Record Run : Type := {
  service : State;
  suspended : list Suspension;
  fired : list C
}.

Definition start : Run :=
  {| service := initial; suspended := []; fired := [] |}.

Definition step (env : Env) (r : Run) (c : Call) : Run :=
  match c with
  | Play base64Audio cb =>
      let '(s, f, k) := playAudio_begin env base64Audio cb (service r) in
      {| service := s;
         suspended := suspended r ++ from_option (fun k => [k]) [] k;
         fired := fired r ++ f |}
  | Stop =>
      {| service := stop (service r); suspended := suspended r;
         fired := fired r |}
  | Resume =>
      match suspended r with
      | [] => r
      | k :: rest =>
          let '(s, f) := playAudio_resume k (service r) in
          {| service := s; suspended := rest; fired := fired r ++ f |}
      end
  | SourceEnded i =>
      let '(s, f) := dispatchEnded env i (service r) in
      {| service := s; suspended := suspended r; fired := fired r ++ f |}
  end.

Definition run (env : Env) (cs : list Call) (r : Run) : Run :=
  fold_left (step env) cs r.

(** ** Calls that are awaited *)

(** A caller that awaits every [playAudio] before it does anything
    else sees each call as one step. *)
Inductive Action : Type :=
| DoPlay (base64Audio : string) (cb : option C)
| DoStop
| DoEnded (i : nat).

Definition act (env : Env) (s : State) (a : Action) : State * list C :=
  match a with
  | DoPlay base64Audio cb => playAudio env base64Audio cb s
  | DoStop => (stop s, [])
  | DoEnded i => dispatchEnded env i s
  end.

Definition acts (env : Env) (l : list Action) (s : State) : State :=
  fold_left (fun s a => fst (act env s a)) l s.

(** ** Properties of a service state *)

(** Every sounding node is the one [currentSource] refers to. *)
Definition exclusive (s : State) : Prop :=
  forall i n, nodes s !! i = Some n -> playback n = Playing ->
              currentSource s = Some i.

(** No node is sounding. *)
Definition silent (s : State) : Prop :=
  Forall (fun n => playback n <> Playing) (nodes s).



End Service.

Arguments Action : clear implicits.

(** A browser: the device exists and a source halted by [stop()] also
    receives [ended].  [quiet] differs in the second point. *)
Definition browser : Env :=
  {| deviceAvailable := true; endedAfterStop := true |}.

Definition quiet : Env :=
  {| deviceAvailable := true; endedAfterStop := false |}.

(** A payload of two zero bytes: one sample of silence. *)
Definition blip : string := "AAA=".

Arguments SourceNode : clear implicits.
Arguments State : clear implicits.
Arguments Suspension : clear implicits.
Arguments Call : clear implicits.
Arguments Run : clear implicits.

End AudioService.

(* ================================================================== *)
(** * [components/InterviewSession] *)
(* ================================================================== *)

Module Session.
Import Js.
Export AudioService.

(** ** [types.ts] *)

Inductive Role : Type := ai | user.

Record Message : Type := {
  id : string;
  role : Role;
  text : string;
  feedback : option string;
  score : option Z
}.

Inductive Category : Type := technical | soft | other.

Record Skill : Type := {
  skillId : string;
  name : string;
  category : Category;
  selected : bool
}.

(** The value [validateAnswer] resolves to. *)
Record Validation : Type := {
  validationFeedback : string;
  validationScore : Z
}.

Definition isAi (m : Message) : bool :=
  match role m with ai => true | user => false end.

(** ** Component state *)

(** The only completion callback the component passes to the audio
    service: [() => setIsPlaying(false)]. *)
Inductive Callback : Type := ResetIsPlaying.

(** The [useState] cells of the component, the [audioService] object it
    imports, and the reading of [Date.now()]. *)
Record World : Type := {
  messages : list Message;
  inputText : string;
  isLoading : bool;
  isPlaying : bool;
  audio : AudioService.State Callback;
  clock : Z
}.

Definition setMessages (f : list Message -> list Message) (w : World)
  : World :=
  {| messages := f (messages w); inputText := inputText w;
     isLoading := isLoading w; isPlaying := isPlaying w;
     audio := audio w; clock := clock w |}.

Definition setInputText (v : string) (w : World) : World :=
  {| messages := messages w; inputText := v;
     isLoading := isLoading w; isPlaying := isPlaying w;
     audio := audio w; clock := clock w |}.

Definition setIsLoading (v : bool) (w : World) : World :=
  {| messages := messages w; inputText := inputText w;
     isLoading := v; isPlaying := isPlaying w;
     audio := audio w; clock := clock w |}.

Definition setIsPlaying (v : bool) (w : World) : World :=
  {| messages := messages w; inputText := inputText w;
     isLoading := isLoading w; isPlaying := v;
     audio := audio w; clock := clock w |}.

Definition setAudio (a : AudioService.State Callback) (w : World)
  : World :=
  {| messages := messages w; inputText := inputText w;
     isLoading := isLoading w; isPlaying := isPlaying w;
     audio := a; clock := clock w |}.

Definition setClock (now : Z) (w : World) : World :=
  {| messages := messages w; inputText := inputText w;
     isLoading := isLoading w; isPlaying := isPlaying w;
     audio := audio w; clock := now |}.

Definition runCallback (w : World) (cb : Callback) : World :=
  match cb with ResetIsPlaying => setIsPlaying false w end.

Definition runCallbacks (cbs : list Callback) (w : World) : World :=
  fold_left runCallback cbs w.

(** ** Outstanding awaits *)

(** An [async] handler that reached an [await]: what it waits for and
    how it continues.  A continuation returns the new state and the
    awaits it leaves outstanding in turn. *)
Inductive Task : Type :=
| AwaitValidate (question answer : string)
    (k : Settled Validation -> World -> World * list Task)
| AwaitQuestion (skills : list Skill) (previousQuestions : list string)
    (k : Settled string -> World -> World * list Task)
| AwaitSpeech (spoken : string)
    (k : option string -> World -> World * list Task)
| AwaitDecode
    (k : World -> World * list Task).

(** What a call of [handleSendMessage] leaves behind when control
    returns to the caller. *)
Record Result : Type := {
  after : World;
  awaits : list Task;
  thrown : option Error
}.

Section Component.
(** The component's prop and the browser it runs in. *)
Context (selectedSkills : list Skill) (env : Env).

(** ** [handlePlayAudio] *)

(** [await audioService.playAudio(audioData, () => setIsPlaying(false))] *)
Definition callPlayAudio (audioData : string) (w : World)
  : World * list Task :=
  let '(a, fired, k) :=
    playAudio_begin env audioData (Some ResetIsPlaying) (audio w) in
  let w := runCallbacks fired (setAudio a w) in
  match k with
  | None => (w, [])
  | Some k =>
      (w, [AwaitDecode (fun w =>
             let '(a, fired) := playAudio_resume k (audio w) in
             (runCallbacks fired (setAudio a w), []))])
  end.

(** [handlePlayAudio(text)].  [isPlaying0] is the value of [isPlaying]
    in the render whose closure is called. *)
Definition handlePlayAudio (isPlaying0 : bool) (text0 : string)
    (w : World) : World * list Task :=
  if isPlaying0 then
    let w := setAudio (stop (audio w)) w in
    let w := setIsPlaying false w in
    (w, [])
  else
    let w := setIsPlaying true w in
    (w, [AwaitSpeech text0 (fun audioData w =>
           match audioData with
           | Some data =>
               if truthy data then callPlayAudio data w
               else (setIsPlaying false w, [])
           | None => (setIsPlaying false w, [])
           end)]).

(** ** The mount effect: [startInterview] *)

Definition startInterview (w : World) : World * list Task :=
  let w := setIsLoading true w in
  (w, [AwaitQuestion selectedSkills [] (fun r w =>
         match r with
         | Fulfilled question =>
             let newMessage :=
               {| id := "init"; role := ai; text := question;
                  feedback := None; score := None |} in
             let w := setMessages (fun _ => [newMessage]) w in
             let w := setIsLoading false w in
             handlePlayAudio false question w
         | Rejected _ => (w, [])
         end)]).

(** ** [handleSendMessage] *)

(** [{ ...m, feedback: validation.feedback, score: validation.score }] *)
Definition withValidation (validation : Validation) (m : Message)
  : Message :=
  {| id := id m; role := role m; text := text m;
     feedback := Some (validationFeedback validation);
     score := Some (validationScore validation) |}.

(** [prev.map(m => m.id === userMsg.id ? { ...m, ... } : m)] *)
Definition attachValidation (userId : string) (validation : Validation)
    (prev : list Message) : list Message :=
  map (fun m => if String.eqb (id m) userId
                then withValidation validation m else m) prev.

(** The state read by the body is the state of the render whose
    closure is called: [inputText], [messages] and, through
    [handlePlayAudio], [isPlaying]. *)
Definition handleSendMessage (w : World) : Result :=
  let inputText0 := inputText w in
  let messages0 := messages w in
  let isPlaying0 := isPlaying w in
  if negb (truthy (trim inputText0)) then
    {| after := w; awaits := []; thrown := None |}
  else
    match last messages0 with
    | None => {| after := w; awaits := []; thrown := Some TypeError |}
    | Some lastMessage =>
        let currentQuestion := text lastMessage in
        let userMsg :=
          {| id := toString (clock w); role := user; text := inputText0;
             feedback := None; score := None |} in
        let w := setMessages (fun prev => prev ++ [userMsg]) w in
        let w := setInputText "" w in
        let w := setIsLoading true w in
        {| after := w; thrown := None;
           awaits :=
             [AwaitValidate currentQuestion (text userMsg) (fun r w =>
                match r with
                | Rejected _ => (setIsLoading false w, [])
                | Fulfilled validation =>
                    let w :=
                      setMessages
                        (attachValidation (id userMsg) validation) w in
                    let prevQuestions :=
                      map text (List.filter isAi messages0) in
                    (w, [AwaitQuestion selectedSkills prevQuestions
                           (fun r w =>
                              match r with
                              | Rejected _ => (setIsLoading false w, [])
                              | Fulfilled nextQuestion =>
                                  let aiMsg :=
                                    {| id := toString (clock w + 1);
                                       role := ai; text := nextQuestion;
                                       feedback := None;
                                       score := None |} in
                                  let w :=
                                    setMessages
                                      (fun prev => prev ++ [aiMsg]) w in
                                  let '(w, ts) :=
                                    handlePlayAudio isPlaying0
                                      nextQuestion w in
                                  (setIsLoading false w, ts)
                              end)])
                end)] |}
    end.

(** ** Events *)

Inductive Response : Type :=
| ValidationSettled (r : Settled Validation)
| QuestionSettled (r : Settled string)
| SpeechSettled (r : option string)
| DecodeSettled.

Inductive Event : Type :=
| Tick (now : Z)
    (* the reading of [Date.now()] becomes [now] *)
| Change (value : string)
    (* [onChange] of the textarea *)
| ClickSend
    (* [onClick] of the send button *)
| KeyEnter
    (* [onKeyDown] of the textarea with Enter and no Shift *)
| ClickReadAloud (i : nat)
    (* [onClick] of the audio button under message [i] *)
| Settle (i : nat) (r : Response)
    (* the [i]-th outstanding await resumes with [r] *)
| SourceEnded (n : nat).
    (* the platform dispatches [ended] to source node [n] *)

Record System : Type := {
  world : World;
  pending : list Task
}.

Definition resume (t : Task) (r : Response)
  : option (World -> World * list Task) :=
  match t, r with
  | AwaitValidate _ _ k, ValidationSettled r => Some (k r)
  | AwaitQuestion _ _ k, QuestionSettled r => Some (k r)
  | AwaitSpeech _ k, SpeechSettled r => Some (k r)
  | AwaitDecode k, DecodeSettled => Some k
  | _, _ => None
  end.

(** [disabled={!inputText.trim() || isLoading}] of the send button and
    [disabled={isLoading}] of the textarea. *)
Definition sendDisabled (w : World) : bool :=
  negb (truthy (trim (inputText w))) || isLoading w.

Definition textareaDisabled (w : World) : bool := isLoading w.

(** A call of [handleSendMessage] from an event handler; the promise
    it returns is dropped. *)
Definition callSendMessage (s : System) : System :=
  let r := handleSendMessage (world s) in
  {| world := after r; pending := pending s ++ awaits r |}.

Definition step (s : System) (e : Event) : System :=
  let w := world s in
  match e with
  | Tick now => {| world := setClock now w; pending := pending s |}
  | Change value =>
      if textareaDisabled w then s
      else {| world := setInputText value w; pending := pending s |}
  | ClickSend => if sendDisabled w then s else callSendMessage s
  | KeyEnter => if textareaDisabled w then s else callSendMessage s
  | ClickReadAloud i =>
      match messages w !! i with
      | Some m =>
          if isAi m then
            let '(w', ts) := handlePlayAudio (isPlaying w) (text m) w in
            {| world := w'; pending := pending s ++ ts |}
          else s
      | None => s
      end
  | Settle i r =>
      match pending s !! i with
      | Some t =>
          match resume t r with
          | Some k =>
              let '(w', ts) := k w in
              {| world := w'; pending := delete i (pending s) ++ ts |}
          | None => s
          end
      | None => s
      end
  | SourceEnded n =>
      let '(a, fired) := dispatchEnded env n (audio w) in
      {| world := runCallbacks fired (setAudio a w);
         pending := pending s |}
  end.

Definition run (es : list Event) (s : System) : System :=
  fold_left step es s.

(** The first render, with the audio service in state [a] and the
    clock at [now], followed by the mount effect. *)
Definition firstRender (a : AudioService.State Callback) (now : Z)
  : World :=
  {| messages := []; inputText := ""; isLoading := false;
     isPlaying := false; audio := a; clock := now |}.

Definition mount (a : AudioService.State Callback) (now : Z) : System :=
  let '(w, ts) := startInterview (firstRender a now) in
  {| world := w; pending := ts |}.

(** ** Properties of the transcript and of outstanding awaits *)



(** [m'] is the turn [m], possibly with feedback and score added. *)
Definition sameTurn (m m' : Message) : Prop :=
  id m = id m' /\ role m = role m' /\ text m = text m' /\
  (is_Some (feedback m) -> is_Some (feedback m')) /\
  (is_Some (score m) -> is_Some (score m')).

(** [l'] keeps every turn of [l], in order, and may have more. *)
Definition extends (l l' : list Message) : Prop :=
  exists l1 l2, l' = l1 ++ l2 /\ Forall2 sameTurn l l1.

(** One change of the transcript: turns are appended, or the result of
    an evaluation is attached to the turns with a given id. *)
Definition transcriptStep (l l' : list Message) : Prop :=
  (exists new, l' = l ++ new) \/
  (exists userId validation, l' = attachValidation userId validation l).

(** [hereditarily ok R t]: whenever the await [t] is resumed with a
    response that [ok] admits, its continuation takes a state [w] to a
    state related to [w] by [R], and the awaits it leaves outstanding
    are of the same kind. *)
Inductive hereditarily (ok : Response -> Prop)
    (R : World -> World -> Prop) : Task -> Prop :=
| hereditarily_validate question answer k :
    (forall r w, ok (ValidationSettled r) ->
                 R w (fst (k r w)) /\
                 Forall (hereditarily ok R) (snd (k r w))) ->
    hereditarily ok R (AwaitValidate question answer k)
| hereditarily_question skills previousQuestions k :
    (forall r w, ok (QuestionSettled r) ->
                 R w (fst (k r w)) /\
                 Forall (hereditarily ok R) (snd (k r w))) ->
    hereditarily ok R (AwaitQuestion skills previousQuestions k)
| hereditarily_speech spoken k :
    (forall r w, ok (SpeechSettled r) ->
                 R w (fst (k r w)) /\
                 Forall (hereditarily ok R) (snd (k r w))) ->
    hereditarily ok R (AwaitSpeech spoken k)
| hereditarily_decode k :
    (forall w, ok DecodeSettled ->
               R w (fst (k w)) /\
               Forall (hereditarily ok R) (snd (k w))) ->
    hereditarily ok R (AwaitDecode k).

Definition anyResponse (r : Response) : Prop := True.

(** No await of a collaborator throws.  The collaborators of the
    repository catch their own errors, so their promises never reject. *)
Definition noRejection (r : Response) : Prop :=
  match r with
  | ValidationSettled (Rejected _) | QuestionSettled (Rejected _) => False
  | _ => True
  end.

Definition noRejectionIn (e : Event) : Prop :=
  match e with
  | Settle _ r => noRejection r
  | _ => True
  end.

(** An await whose continuations change the transcript by transcript
    steps only, whenever and with whatever they are resumed. *)
Definition orderly : Task -> Prop :=
  hereditarily anyResponse
    (fun w w' => transcriptStep (messages w) (messages w')).

(** Continuations that leave [messages], [inputText] and [isLoading] as
    they are: those of the narration. *)
Definition sameSession (w w' : World) : Prop :=
  messages w' = messages w /\ inputText w' = inputText w /\
  isLoading w' = isLoading w.

Definition narration : Task -> Prop := hereditarily anyResponse sameSession.



(** What holds of every state a session reaches: until the first
    question has arrived the transcript is empty, the session is loading
    and the only await is that of [startInterview]; afterwards every
    await is orderly. *)
Definition wellFormed (s : System) : Prop :=
  (messages (world s) = [] /\ isLoading (world s) = true /\
   pending s = snd (startInterview (world s))) \/
  Forall orderly (pending s).

End Component.

(** ** A session used in examples *)

Definition goSkill : Skill :=
  {| skillId := "s1"; name := "Go"; category := technical;
     selected := true |}.

Definition good : Validation :=
  {| validationFeedback := "Good"; validationScore := 8 |}.

Definition tooShort : Validation :=
  {| validationFeedback := "Too short"; validationScore := 3 |}.

(** The first question arrives and is narrated to its end; the user
    answers at clock reading 1000. *)
Definition answerSubmitted : list Event :=
  [ Settle 0 (QuestionSettled (Js.Fulfilled "Q1"));
    Settle 0 (SpeechSettled (Some "AAA="));
    Settle 0 DecodeSettled;
    SourceEnded 0;
    Tick 1000; Change "I use goroutines"; ClickSend ].

(** Evaluation and second question arrive at 5000 and the narration of
    the second question starts.  The two narrations have different
    payloads: the one-sample buffers [0] for "Q1" and [1] for "Q2". *)
Definition secondQuestionSounding : list Event :=
  answerSubmitted ++
  [ Tick 5000;
    Settle 0 (ValidationSettled (Js.Fulfilled good));
    Settle 0 (QuestionSettled (Js.Fulfilled "Q2"));
    Settle 0 (SpeechSettled (Some "AQA="));
    Settle 0 DecodeSettled ].

(** One millisecond later the user sends the next answer, which is
    evaluated in turn. *)
Definition nextAnswer : list Event :=
  [ Tick 5001; Change "With channels"; KeyEnter;
    Settle 0 (ValidationSettled (Js.Fulfilled tooShort)) ].

(** A state in which the first question waits for its answer. *)
Definition firstQuestion : Message :=
  {| id := "init"; role := ai; text := "Q1";
     feedback := None; score := None |}.

Definition answering : World :=
  {| messages := [firstQuestion]; inputText := "I use goroutines";
     isLoading := false; isPlaying := false;
     audio := initial; clock := 1000 |}.

End Session.

(* ================================================================== *)
(** * Values read from JSON *)
(* ================================================================== *)

Module Value.
Import Js.

(** What [JSON.parse] and [response.json()] produce, and [undefined]. *)
Inductive t : Type :=
| Undefined
| Null
| Bool (b : bool)
| Number (q : Q)
| Str (s : string)
| Arr (items : list t)
| Obj (fields : list (string * t)).

(** Truthiness: [undefined], [null], [false], [0] and [""] are falsy. *)
Definition truthy (v : t) : bool :=
  match v with
  | Undefined | Null => false
  | Bool b => b
  | Number q => negb (Qeq_bool q 0)
  | Str s => Js.truthy s
  | Arr _ | Obj _ => true
  end.

(** [a || b] *)
Definition or (a b : t) : t := if truthy a then a else b.

(** The value stored under [key]; an object holds each key once. *)
Fixpoint field (key : string) (fields : list (string * t)) : t :=
  match fields with
  | [] => Undefined
  | (k, v) :: rest => if String.eqb k key then v else field key rest
  end.

(** [v.key] for a [key] that names no built-in property: a [TypeError]
    on [undefined] and [null], [undefined] on what is not an object. *)
Definition get (key : string) (v : t) : Settled t :=
  match v with
  | Undefined | Null => Rejected TypeError
  | Obj fields => Fulfilled (field key fields)
  | _ => Fulfilled Undefined
  end.

(** [m] then [k]: an exception in [m] leaves the block. *)
Definition bind {A B : Type} (m : Settled A) (k : A -> Settled B)
  : Settled B :=
  match m with
  | Fulfilled a => k a
  | Rejected e => Rejected e
  end.

(** [try { m } catch (error) { h }] *)
Definition catch {A : Type} (m : Settled A) (h : Error -> Settled A)
  : Settled A :=
  match m with
  | Fulfilled a => Fulfilled a
  | Rejected e => h e
  end.

End Value.

Notation "'let!' x ':=' m 'in' k" := (Value.bind m (fun x => k))
  (at level 10, x name, m at level 100, k at level 200).

(* ================================================================== *)
(** * [Interview/services/gemini.ts]: the collaborators behind the backend *)
(* ================================================================== *)

Module Backend.
Import Js Platform Session.

(** A request: the endpoint under [BACKEND_URL] and what is posted. *)
Inductive Request : Type :=
| ParseResume (file : Uint8Array) (mimeType : string)
| GenerateQuestion (selected_skills : list Skill)
    (previous_questions : list string)
| ValidateAnswer (question answer : string)
| Tts (spoken : string).

(** A response: [response.ok] and the settled [response.json()]. *)
Record Response : Type := {
  ok : bool;
  json : Settled Value.t
}.

Definition couldNotGenerate : string := "Could not generate a question.".

Definition errorValidating : Value.t :=
  Value.Obj [("feedback", Value.Str "Error validating answer");
             ("score", Value.Number 0)].

Section Services.
(** [fetch]: a rejected promise is a network error. *)
Context (fetch : Request -> Settled Response).

(** [parseResumeForSkills(fileData, mimeType)] *)
Definition parseResumeForSkills (fileData mimeType : string)
  : Settled Value.t :=
  Value.catch
    (match atob fileData with
     | None => Rejected (OtherError "InvalidCharacterError")
     | Some byteCharacters =>
         let byteArray :=
           map byte_of_ascii (list_ascii_of_string byteCharacters) in
         let! response := fetch (ParseResume byteArray mimeType) in
         if negb (ok response)
         then Rejected (OtherError "Backend failed to parse resume")
         else
           let! skills := json response in
           Fulfilled skills
     end)
    (fun _ =>
       Rejected (OtherError "Failed to parse resume. Please try again.")).

(** [generateInterviewQuestion(selectedSkills, previousQuestions)] *)
Definition generateInterviewQuestion (selectedSkills : list Skill)
    (previousQuestions : list string) : Settled Value.t :=
  Value.catch
    (let! response := fetch (GenerateQuestion selectedSkills previousQuestions) in
     if negb (ok response) then Fulfilled (Value.Str couldNotGenerate)
     else
       let! data := json response in
       Value.get "question" data)
    (fun _ => Fulfilled (Value.Str couldNotGenerate)).

(** [validateAnswer(question, answer)] *)
Definition validateAnswer (question answer : string) : Settled Value.t :=
  Value.catch
    (let! response := fetch (ValidateAnswer question answer) in
     if negb (ok response) then Fulfilled errorValidating
     else json response)
    (fun _ => Fulfilled errorValidating).

(** [generateSpeech(text)]; the result [null] is [Value.Null]. *)
Definition generateSpeech (spoken : string) : Settled Value.t :=
  Value.catch
    (let! response := fetch (Tts spoken) in
     if negb (ok response) then Fulfilled Value.Null
     else
       let! data := json response in
       let! audio := Value.get "audio" data in
       Fulfilled (Value.or audio Value.Null))
    (fun _ => Fulfilled Value.Null).

(** The request for [request] failed: [fetch] rejected, or the status
    of the response is not in the range 200..299, or its body is not
    JSON. *)
Definition failed (request : Request) : Prop :=
  match fetch request with
  | Rejected _ => True
  | Fulfilled response =>
      ok response = false \/ exists e, json response = Rejected e
  end.

(** The request for [request] was answered with status ok and the JSON
    object with the given [fields]. *)
Definition answered (request : Request) (fields : list (string * Value.t))
  : Prop :=
  exists response,
    fetch request = Fulfilled response /\ ok response = true /\
    json response = Fulfilled (Value.Obj fields).

End Services.

(** A backend that is down, and one that answers every request with
    the same object. *)
Definition down (request : Request) : Settled Response :=
  Rejected (OtherError "Failed to fetch").

Definition replies (fields : list (string * Value.t)) (request : Request)
  : Settled Response :=
  Fulfilled {| ok := true; json := Fulfilled (Value.Obj fields) |}.

End Backend.

(* ================================================================== *)
(** * [services/gemini.ts]: the collaborators on the model API *)
(* ================================================================== *)

Module Gemini.
Import Js Session.

(** What a call of [ai.models.generateContent] carries that the code
    decides: the parts of the prompt that come from the arguments. *)
Inductive Request : Type :=
| ExtractSkills (fileData mimeType : string)
| AskQuestion (skillsList : string) (previousQuestions : list string)
| Evaluate (question answer : string)
| Speak (spoken : string).

(** What the code reads of a response: [response.text] and the inline
    data of the first part of the first candidate; [None] is
    [undefined]. *)
Record Response : Type := {
  responseText : option string;
  inlineData : option string
}.

(** A skill as [parseResumeForSkills] builds it: [name] and [category]
    are whatever the response holds. *)
Record ExtractedSkill : Type := {
  extractedId : string;
  extractedName : Value.t;
  extractedCategory : Value.t;
  extractedSelected : bool
}.

(** The object [validateAnswer] returns. *)
Record Evaluation : Type := {
  evaluationFeedback : Value.t;
  evaluationScore : Value.t
}.

Definition failedToParse : string :=
  "Failed to parse resume. Please try again.".

Definition couldNotGenerate : string := "Could not generate a question.".

Definition noFeedback : string := "No feedback provided.".

(** [text || fallback] for a string that may be [undefined]. *)
Definition textOr (text0 : option string) (fallback : string) : string :=
  match text0 with
  | Some s => if truthy s then s else fallback
  | None => fallback
  end.

(** [selectedSkills.map(s => s.name).join(', ')] *)
Definition skillsList (selectedSkills : list Skill) : string :=
  String.concat ", " (map name selectedSkills).

(** The callback of [.map] in [parseResumeForSkills], over the entries
    from position [index] on; an entry [null] throws. *)
Fixpoint toSkills (index : nat) (entries : list Value.t)
  : Settled (list ExtractedSkill) :=
  match entries with
  | [] => Fulfilled []
  | s :: rest =>
      let! name0 := Value.get "name" s in
      let! category0 := Value.get "category" s in
      let! more := toSkills (S index) rest in
      Fulfilled
        ({| extractedId := "skill-" ++ toString (Z.of_nat index);
            extractedName := name0;
            extractedCategory := category0;
            extractedSelected := true |} :: more)
  end.

(** [v.map(f)]: only an array has the method. *)
Definition mapEntries (v : Value.t) : Settled (list ExtractedSkill) :=
  match v with
  | Value.Arr entries => toSkills 0 entries
  | _ => Rejected TypeError
  end.

Section Services.
(** The model API and [JSON.parse]; a rejected promise of the first is
    a failed call, a rejected result of the second a [SyntaxError]. *)
Context (generateContent : Request -> Settled Response)
        (parse : string -> Settled Value.t).

(** [parseResumeForSkills(fileData, mimeType)] *)
Definition parseResumeForSkills (fileData mimeType : string)
  : Settled (list ExtractedSkill) :=
  Value.catch
    (let! response := generateContent (ExtractSkills fileData mimeType) in
     let jsonText := textOr (responseText response) "{}" in
     let! data := parse jsonText in
     let! skills := Value.get "skills" data in
     mapEntries (Value.or skills (Value.Arr [])))
    (fun _ => Rejected (OtherError failedToParse)).

(** [generateInterviewQuestion(selectedSkills, previousQuestions)]:
    [response.text?.trim() || "Could not generate a question."] *)
Definition generateInterviewQuestion (selectedSkills : list Skill)
    (previousQuestions : list string) : Settled string :=
  let! response := generateContent (AskQuestion (skillsList selectedSkills)
                       previousQuestions) in
  Fulfilled (textOr (option_map trim (responseText response))
               couldNotGenerate).

(** [validateAnswer(question, answer)] *)
Definition validateAnswer (question answer : string) : Settled Evaluation :=
  let! response := generateContent (Evaluate question answer) in
  let jsonText := textOr (responseText response) "{}" in
  let! data := parse jsonText in
  let! feedback0 := Value.get "feedback" data in
  let! score0 := Value.get "score" data in
  Fulfilled
    {| evaluationFeedback := Value.or feedback0 (Value.Str noFeedback);
       evaluationScore := Value.or score0 (Value.Number 0) |}.

(** [generateSpeech(text)]; [None] is [null]. *)
Definition generateSpeech (spoken : string) : Settled (option string) :=
  Value.catch
    (let! response := generateContent (Speak spoken) in
     Fulfilled (match inlineData response with
                | Some audioData =>
                    if truthy audioData then Some audioData else None
                | None => None
                end))
    (fun _ => Fulfilled None).

End Services.

(** [l] does not begin with an element that [p] accepts: what
    [dropWhile p] leaves. *)
Definition headKept {A} (p : A -> bool) (l : list A) : Prop :=
  match l with [] => True | x :: _ => p x = false end.

(** The id given to the entry at position [index]. *)
Definition skillIdAt (index : nat) : string :=
  "skill-" ++ toString (Z.of_nat index).

(** The skill built from [entry] carries its name and category. *)
Definition builtFrom (entry : Value.t) (s : ExtractedSkill) : Prop :=
  Value.get "name" entry = Fulfilled (extractedName s) /\
  Value.get "category" entry = Fulfilled (extractedCategory s).

(** A model API that answers every call with the same response, and
    one whose calls fail. *)
Definition answers (response : Response) (request : Request)
  : Settled Response :=
  Fulfilled response.

Definition unavailable (request : Request) : Settled Response :=
  Rejected (OtherError "Service Unavailable").

(** [JSON.parse] on the texts listed in [table]; any other text is a
    syntax error. *)
Fixpoint parseOf (table : list (string * Value.t)) (jsonText : string)
  : Settled Value.t :=
  match table with
  | [] => Rejected (OtherError "SyntaxError")
  | (k, v) :: rest =>
      if String.eqb k jsonText then Fulfilled v else parseOf rest jsonText
  end.

End Gemini.

(* ================================================================== *)
(** * [App.tsx] and [components/SkillSelector.tsx] *)
(* ================================================================== *)

Module App.
Import Js Session.

Inductive AppStep : Type := UPLOAD | SELECT_SKILLS | INTERVIEW | SUMMARY.

Definition isStep (a b : AppStep) : bool :=
  match a, b with
  | UPLOAD, UPLOAD | SELECT_SKILLS, SELECT_SKILLS
  | INTERVIEW, INTERVIEW | SUMMARY, SUMMARY => true
  | _, _ => false
  end.

(** The [useState] cells of [App]. *)
Record State : Type := {
  step : AppStep;
  skills : list Skill
}.

Definition initial : State := {| step := UPLOAD; skills := [] |}.

(** [{ ...s, selected: !s.selected }] *)
Definition toggled (s : Skill) : Skill :=
  {| skillId := skillId s; name := name s; category := category s;
     selected := negb (selected s) |}.

Definition handleSkillsExtracted (extractedSkills : list Skill)
    (st : State) : State :=
  {| step := SELECT_SKILLS; skills := extractedSkills |}.

Definition handleToggleSkill (id0 : string) (st : State) : State :=
  {| step := step st;
     skills := map (fun s => if String.eqb (skillId s) id0
                             then toggled s else s) (skills st) |}.

Definition startInterview (st : State) : State :=
  {| step := INTERVIEW; skills := skills st |}.

Definition resetApp (st : State) : State :=
  {| step := UPLOAD; skills := [] |}.

(** [SkillSelector]: [skills.filter(s => s.selected).length] and the
    [disabled] attribute of the "Start Interview" button. *)
Definition selectedCount (l : list Skill) : nat :=
  length (List.filter selected l).

Definition confirmDisabled (l : list Skill) : bool :=
  Nat.eqb (selectedCount l) 0.

Inductive Icon : Type := Wrench | Brain | Briefcase.

Definition getIcon (c : Category) : Icon :=
  match c with
  | technical => Wrench
  | soft => Brain
  | other => Briefcase
  end.

(** The prop [selectedSkills] that [App] gives to [InterviewSession]. *)
Definition selectedSkills (st : State) : list Skill :=
  List.filter selected (skills st).

(** What can happen to [App]: [FileUpload] delivers skills; a skill
    button, the confirm button, "Start Over" or "End Session" is
    clicked.  Each button exists only in the step that renders it. *)
Inductive Event : Type :=
| SkillsExtracted (extractedSkills : list Skill)
| ToggleSkill (id0 : string)
| Confirm
| StartOver
| EndSession.

Definition handle (st : State) (e : Event) : State :=
  match e with
  | SkillsExtracted l => handleSkillsExtracted l st
  | ToggleSkill id0 =>
      if isStep (step st) SELECT_SKILLS then handleToggleSkill id0 st
      else st
  | Confirm =>
      if isStep (step st) SELECT_SKILLS
         && negb (confirmDisabled (skills st))
      then startInterview st else st
  | StartOver =>
      if isStep (step st) UPLOAD then st else resetApp st
  | EndSession =>
      if isStep (step st) INTERVIEW then resetApp st else st
  end.

Definition run (es : list Event) (st : State) : State :=
  fold_left handle es st.

(** Two more skills for examples, beside [goSkill]. *)
Definition talkSkill : Skill :=
  {| skillId := "s2"; name := "Communication"; category := soft;
     selected := false |}.

Definition sqlSkill : Skill :=
  {| skillId := "s3"; name := "SQL"; category := technical;
     selected := true |}.

(** What holds of every state of [App] reached from the first render. *)
Definition sound (st : State) : Prop :=
  step st <> SUMMARY /\
  (step st = UPLOAD -> skills st = []) /\
  (step st = INTERVIEW -> selectedCount (skills st) <> 0%nat).

End App.

(* ================================================================== *)
(** * [components/FileUpload.tsx] *)
(* ================================================================== *)

Module FileUpload.
Import Js Session.

(** [s.split(sep)] for a one-character separator, on the characters
    of [s]; [current] holds the piece being read, reversed. *)
Fixpoint splitFrom (sep : ascii) (current : list ascii) (s : list ascii)
  : list string :=
  match s with
  | [] => [string_of_list_ascii (rev current)]
  | c :: rest =>
      if Ascii.eqb c sep
      then string_of_list_ascii (rev current) :: splitFrom sep [] rest
      else splitFrom sep (c :: current) rest
  end.

Definition split (sep : ascii) (s : string) : list string :=
  splitFrom sep [] (list_ascii_of_string s).

(** The [useState] cells of [FileUpload]. *)
Record State : Type := {
  isDragOver : bool;
  loading : bool;
  error : option string
}.

Definition setLoading (v : bool) (st : State) : State :=
  {| isDragOver := isDragOver st; loading := v; error := error st |}.

Definition setError (v : option string) (st : State) : State :=
  {| isDragOver := isDragOver st; loading := loading st; error := v |}.

Definition validTypes : list string := ["application/pdf"; "text/plain"].

(** [validTypes.includes(file.type)] *)
Definition isValidType (fileType : string) : bool :=
  existsb (String.eqb fileType) validTypes.

(** How [reader.readAsDataURL(file)] goes: it throws, or the reader
    later fires [load] with [e.target.result], or it fires [error], for
    which there is no handler. *)
Inductive Reading : Type :=
| ReadThrows
| ReadLoads (result : string)
| ReadErrors.

(** [handleFile(file)] until control returns: the new state and whether
    a reader was started.  [fileType] is [file.type]; [None] is a
    missing file. *)
Definition handleFile (fileType : option string) (throws : bool)
    (st : State) : State * bool :=
  match fileType with
  | None => (st, false)
  | Some type0 =>
      if negb (isValidType type0)
      then (setError (Some "Please upload a PDF or TXT file.") st, false)
      else
        let st := setLoading true st in
        let st := setError None st in
        if throws
        then (setLoading false (setError (Some "Error reading file.") st),
              false)
        else (st, true)
  end.

(** [reader.onload] up to its [await]: the arguments of the call of
    [parseResumeForSkills].  [None] as first argument is [undefined]. *)
Definition onloadBegin (result type0 : string) : option string * string :=
  (split "," result !! 1%nat, type0).

(** [reader.onload] after [await parseResumeForSkills(...)]: the new
    state and the skills given to [onSkillsExtracted], if it is
    called. *)
Definition onloadResume (parsed : Settled (list Skill)) (st : State)
  : State * option (list Skill) :=
  match parsed with
  | Fulfilled skills0 => (setLoading false st, Some skills0)
  | Rejected _ =>
      (setLoading false
         (setError
            (Some "Failed to analyze resume. Please try a different file.")
            st),
       None)
  end.

(** One upload from [handleFile] to the end: the state while the file
    is read and parsed, the arguments given to the parser, the final
    state, and the skills delivered.  [parser] is
    [parseResumeForSkills]. *)
Record Upload : Type := {
  during : State;
  parserCall : option (option string * string);
  final : State;
  delivered : option (list Skill)
}.

Definition upload (fileType : option string) (reading : Reading)
    (parser : option string -> string -> Settled (list Skill))
    (st : State) : Upload :=
  let '(st1, started) :=
    handleFile fileType
      (match reading with ReadThrows => true | _ => false end) st in
  match started, fileType, reading with
  | true, Some type0, ReadLoads result =>
      let call := onloadBegin result type0 in
      let '(st2, out) := onloadResume (parser (fst call) (snd call)) st1 in
      {| during := st1; parserCall := Some call; final := st2;
         delivered := out |}
  | _, _, _ =>
      {| during := st1; parserCall := None; final := st1;
         delivered := None |}
  end.

End FileUpload.

(* ================================================================== *)
(** * Measures and invariants of the audio service and of the session *)
(* ================================================================== *)

Module History.
Import Audio AudioService.

Section Service.
Context {C : Type}.

(** The callbacks given with the [playAudio] calls among [cs], in the
    order of the calls. *)
Definition given (cs : list (Call C)) : list C :=
  flat_map (fun c => match c with Play _ cb => invoke cb | _ => [] end) cs.

(** A node that has not received [ended]. *)
Definition alive (n : SourceNode C) : bool :=
  match playback n with Ended => false | _ => true end.

(** The callbacks that can still be invoked: those of the calls
    suspended at their [await] and those of the sources that have not
    received [ended]. *)
Definition awaited (r : Run C) : list C :=
  flat_map (fun k => invoke (callback k)) (suspended r) ++
  flat_map (fun n => invoke (onEnded n))
           (List.filter alive (nodes (service r))).

(** The order in which a source goes through its states. *)
Definition age (p : Playback) : nat :=
  match p with Playing => 0 | Halted => 1 | Ended => 2 end.

(** [s'] is a later state of the service in state [s]: the context, once
    constructed, is the same; every node of [s] is still there, with its
    buffer and its handler, and has not gone back to an earlier state. *)
Definition later (s s' : State C) : Prop :=
  (forall c, audioContext s = Some c -> audioContext s' = Some c) /\
  forall i n, nodes s !! i = Some n ->
    exists n', nodes s' !! i = Some n' /\
      buffer n' = buffer n /\ onEnded n' = onEnded n /\
      (age (playback n) <= age (playback n'))%nat.

End Service.

End History.

Module Cycle.
Import Js Session.

Definition otherRole (r : Role) : Role :=
  match r with ai => user | user => ai end.

Definition sameRole (a b : Role) : bool :=
  match a, b with ai, ai | user, user => true | _, _ => false end.

(** The turns are spoken alternately, the first by [expected]. *)
Fixpoint alternatesFrom (expected : Role) (l : list Message) : bool :=
  match l with
  | [] => true
  | m :: rest =>
      sameRole (role m) expected && alternatesFrom (otherRole expected) rest
  end.

Definition alternating (l : list Message) : bool := alternatesFrom ai l.

Definition lastRole (l : list Message) : option Role :=
  option_map role (last l).

(** The first turn, if there is one, is the one [startInterview]
    creates. *)
Definition startsWithInit (l : list Message) : Prop :=
  match l with
  | [] => True
  | m :: _ => id m = "init"
  end.

(** An await of a request for an evaluation or a question. *)
Definition isRoundTrip (t : Task) : bool :=
  match t with
  | AwaitValidate _ _ _ | AwaitQuestion _ _ _ => true
  | _ => false
  end.

Definition roundTrips (l : list Task) : list Task :=
  List.filter isRoundTrip l.

(** An await of the narration: of synthesized speech or of the decoded
    payload, whose continuations leave [messages], [inputText] and
    [isLoading] alone and leave awaits of the same kind. *)
Inductive audioAwait : Task -> Prop :=
| audioAwait_speech spoken k :
    (forall r w, sameSession w (fst (k r w)) /\
                 Forall audioAwait (snd (k r w))) ->
    audioAwait (AwaitSpeech spoken k)
| audioAwait_decode k :
    (forall w, sameSession w (fst (k w)) /\
               Forall audioAwait (snd (k w))) ->
    audioAwait (AwaitDecode k).

(** The await of the next question in a [handleSendMessage] call: when
    the question arrives an AI turn is appended, [isLoading] is cleared
    and only narration stays outstanding. *)
Definition questionAwait (t : Task) : Prop :=
  exists skills0 previous k,
    t = AwaitQuestion skills0 previous k /\
    forall question w,
      isLoading (fst (k (Fulfilled question) w)) = false /\
      (exists aiMsg,
         role aiMsg = ai /\
         messages (fst (k (Fulfilled question) w))
           = messages w ++ [aiMsg]) /\
      Forall audioAwait (snd (k (Fulfilled question) w)).

(** The await of the evaluation in a [handleSendMessage] call: when it
    arrives it is attached and the next question is requested. *)
Definition validationAwait (t : Task) : Prop :=
  exists question answer k,
    t = AwaitValidate question answer k /\
    forall validation w,
      exists userId t2,
        k (Fulfilled validation) w
          = (setMessages (attachValidation userId validation) w, [t2]) /\
        questionAwait t2.

Section Component.
Context (selectedSkills : list Skill) (env : Env).

(** What holds of a session in which no await throws.  The transcript
    alternates and begins with the turn "init".  Either the first
    question is awaited; or the session is not loading, the last turn is
    a question and only narration is outstanding; or the session is
    loading, the last turn is an answer and, besides narration, exactly
    one await of its evaluation or of the next question is
    outstanding. *)
Definition steady (s : System) : Prop :=
  alternating (messages (world s)) = true /\
  startsWithInit (messages (world s)) /\
  ((isLoading (world s) = true /\ messages (world s) = [] /\
    pending s = snd (startInterview selectedSkills env (world s))) \/
   (isLoading (world s) = false /\
    lastRole (messages (world s)) = Some ai /\
    Forall audioAwait (pending s)) \/
   (isLoading (world s) = true /\
    lastRole (messages (world s)) = Some user /\
    exists t rest,
      pending s ≡ₚ t :: rest /\
      (validationAwait t \/ questionAwait t) /\
      Forall audioAwait rest)).

End Component.

End Cycle.

(* ================================================================== *)
(** * Decoding of the PCM payload *)
(* ================================================================== *)

Module AudioFacts.
Import Platform Audio.

Lemma byteZ_range (b : byte) : 0 <= byteZ b < 256.
Proof.
  unfold byteZ. pose proof (Byte.to_N_bounded b) as H. lia.
Qed.

Lemma int16_range (lo hi : byte) : -32768 <= int16 lo hi <= 32767.
Proof.
  unfold int16.
  pose proof (byteZ_range lo). pose proof (byteZ_range hi).
  destruct (Z.ltb_spec (byteZ lo + 256 * byteZ hi) 32768); lia.
Qed.

(** The view over an even number of bytes exists, has half as many
    elements, and element [i] is read from bytes [2i] and [2i+1]. *)
Lemma Int16Array_even (n : nat) :
  forall data : Uint8Array,
    length data = (2 * n)%nat ->
    exists l, Int16Array data = Some l /\ length l = n /\
      forall i, (i < n)%nat ->
        exists lo hi,
          data !! (2 * i)%nat = Some lo /\
          data !! (2 * i + 1)%nat = Some hi /\
          l !! i = Some (int16 lo hi).
Proof.
  induction n as [|n IH]; intros data Hlen.
  - destruct data; [|discriminate]. exists []. repeat split; auto.
    intros i Hi. lia.
  - destruct data as [|lo [|hi rest]]; try (simpl in Hlen; lia).
    destruct (IH rest) as (l & Hl & Hn & Hget); [simpl in Hlen; lia|].
    exists (int16 lo hi :: l). cbn [Int16Array]. rewrite Hl.
    split; [reflexivity|]. split; [simpl; lia|].
    intros [|i] Hi.
    + exists lo, hi. repeat split.
    + destruct (Hget i) as (lo' & hi' & H1 & H2 & H3); [lia|].
      exists lo', hi'.
      replace (2 * S i)%nat with (S (S (2 * i))) by lia.
      replace (S (S (2 * i)) + 1)%nat with (S (S (2 * i + 1))) by lia.
      cbn [lookup list_lookup]. auto.
Qed.

Lemma Int16Array_odd (n : nat) :
  forall data : Uint8Array,
    length data = (2 * n + 1)%nat -> Int16Array data = None.
Proof.
  induction n as [|n IH]; intros data Hlen.
  - destruct data as [|b [|? ?]]; try discriminate. reflexivity.
  - destruct data as [|lo [|hi rest]]; try (simpl in Hlen; lia).
    cbn [Int16Array]. rewrite IH; [reflexivity | simpl in Hlen; lia].
Qed.

Lemma Int16Array_zero (data : Uint8Array) (l : list Z) :
  Forall (fun b => b = Byte.x00) data ->
  Int16Array data = Some l -> Forall (fun k => k = 0) l.
Proof.
  revert l. induction data as [data IH] using (induction_ltof1 _ (@length _)).
  unfold ltof in IH. intros l Hz Hl.
  destruct data as [|lo [|hi rest]].
  - injection Hl as <-. constructor.
  - discriminate.
  - cbn [Int16Array] in Hl.
    destruct (Int16Array rest) as [l'|] eqn:E; [|discriminate].
    injection Hl as <-.
    inversion Hz as [|? ? Hlo Hz']; subst.
    inversion Hz' as [|? ? Hhi Hz'']; subst.
    constructor; [reflexivity|].
    apply (IH rest); [simpl; lia | assumption | exact E].
Qed.

Lemma normalized_range (k : Z) :
  -32768 <= k <= 32767 -> (-1 <= normalized k /\ normalized k <= 1)%Q.
Proof.
  intros Hk. unfold normalized, Qle, Qdiv, Qmult, Qinv, inject_Z. simpl.
  lia.
Qed.

(** Writing [f i] at every position [i] from [a] to [a + k - 1] of a
    list: what is found at position [j] afterwards. *)
Lemma fold_insert_lookup (f : nat -> Q) (k : nat) :
  forall (a : nat) (written : list Q) (j : nat),
    fold_left (fun written i => <[i := f i]> written) (seq a k) written !! j
    = if decide (a <= j < a + k)%nat
      then (fun _ => f j) <$> written !! j
      else written !! j.
Proof.
  induction k as [|k IH]; intros a written j; cbn [seq fold_left].
  - destruct (decide (a <= j < a + 0)%nat); [lia | reflexivity].
  - rewrite IH, list_lookup_insert.
    destruct (decide (S a <= j < S a + k)%nat) as [H|H];
      destruct (decide (a <= j < a + S k)%nat) as [H'|H'];
      destruct (decide (a = j /\ (a < length written)%nat)) as [[-> Hl]|Hn];
      try lia; try reflexivity.
    + destruct (lookup_lt_is_Some_2 written j Hl) as [x ->]. reflexivity.
    + assert (a = j) by lia. subst a.
      assert (Hge : (length written <= j)%nat) by lia.
      rewrite (lookup_ge_None_2 written j Hge). reflexivity.
Qed.

(** With one channel, the samples are the elements of the view, each
    divided by 32768, when the channel allocated has their number. *)
Lemma fillChannel_mono (l : list Z) :
  fillChannel l 1 0 (length l) (repeat 0%Q (length l)) = map normalized l.
Proof.
  unfold fillChannel.
  apply list_eq. intros i.
  rewrite (fold_insert_lookup
             (fun i => (inject_Z (nth (i * 1 + 0)%nat l 0%Z) / 32768)%Q)).
  change (map normalized l) with (normalized <$> l).
  rewrite list_lookup_fmap.
  destruct (l !! i) as [k|] eqn:E.
  - assert (Hi : (i < length l)%nat) by (eapply lookup_lt_Some; eauto).
    destruct (decide (0 <= i < 0 + length l)%nat); [|lia].
    destruct (lookup_lt_is_Some_2 (repeat 0%Q (length l)) i) as [x ->];
      [rewrite repeat_length; exact Hi|].
    cbn. unfold normalized. do 3 f_equal.
    replace (i * 1 + 0)%nat with i by lia.
    apply nth_lookup_Some with (d := 0) in E. exact E.
  - assert (Hi : (length l <= i)%nat) by (apply lookup_ge_None; exact E).
    destruct (decide (0 <= i < 0 + length l)%nat); [lia|].
    rewrite lookup_ge_None_2 by (rewrite repeat_length; exact Hi).
    reflexivity.
Qed.

(** A view that is not empty is decoded to one channel at 24 kHz. *)
Lemma decodeAudioData_view (data : Uint8Array) (l : list Z) :
  Int16Array data = Some l -> l <> [] ->
  decodeAudioData data =
    Some {| sampleRate := 24000; channelData := [map normalized l] |}.
Proof.
  intros H Hl. unfold decodeAudioData, decodeAudioData_with. rewrite H.
  rewrite Nat.div_1_r. unfold createBuffer.
  assert (Hlen : (length l =? 0)%nat = false)
    by (destruct l; [congruence | reflexivity]).
  cbn [Nat.eqb orb]. rewrite Hlen.
  cbn [repeat sampleRate channelData imap].
  rewrite fillChannel_mono. reflexivity.
Qed.

(** A payload with an odd number of bytes is not decoded. *)
Lemma decodeAudioData_odd (data : Uint8Array) (n : nat) :
  length data = (2 * n + 1)%nat -> decodeAudioData data = None.
Proof.
  intros H. unfold decodeAudioData, decodeAudioData_with.
  rewrite (Int16Array_odd n data H). reflexivity.
Qed.

(** The empty payload is not decoded: no buffer of zero frames. *)
Lemma decodeAudioData_empty : decodeAudioData [] = None.
Proof. reflexivity. Qed.

(** C3, as the code has it.  A payload of [2 * sampleCount] bytes with
    [sampleCount >= 1] decodes to one channel of exactly [sampleCount]
    samples; sample [i] is the signed 16-bit integer stored low byte
    first in bytes [2i] and [2i+1], divided by 32768; every sample lies
    in [-1, 1]; and a payload of zero bytes decodes to zero samples. *)
Theorem decodeAudioData_samples (data : Uint8Array) (sampleCount : nat) :
  (1 <= sampleCount)%nat ->
  length data = (2 * sampleCount)%nat ->
  exists b,
    decodeAudioData data = Some b /\
    channelData b = [samples b] /\
    length (samples b) = sampleCount /\
    (forall i, (i < sampleCount)%nat ->
       exists lo hi,
         data !! (2 * i)%nat = Some lo /\
         data !! (2 * i + 1)%nat = Some hi /\
         samples b !! i = Some (inject_Z (int16 lo hi) / 32768)%Q) /\
    Forall (fun x => (-1 <= x)%Q /\ (x <= 1)%Q) (samples b) /\
    (Forall (fun c => c = Byte.x00) data ->
     Forall (fun x => (x == 0)%Q) (samples b)).
Proof.
  intros Hpos Hlen.
  destruct (Int16Array_even sampleCount data Hlen) as (l & Hl & Hn & Hget).
  assert (Hne : l <> []) by (intros ->; cbn in Hn; lia).
  eexists. split; [apply decodeAudioData_view; [exact Hl | exact Hne]|].
  unfold samples. cbn [channelData nth].
  split; [reflexivity|].
  split; [rewrite length_map; exact Hn|].
  split.
  - intros i Hi. destruct (Hget i Hi) as (lo & hi & H1 & H2 & H3).
    exists lo, hi. rewrite list_lookup_fmap, H3. auto.
  - split.
    + apply Forall_forall. intros x Hx.
      apply list_elem_of_fmap in Hx. destruct Hx as (k & -> & Hk).
      apply normalized_range.
      apply list_elem_of_lookup in Hk.
      destruct Hk as (i & Hi).
      assert (Hlt : (i < sampleCount)%nat)
        by (rewrite <- Hn; eapply lookup_lt_Some; eauto).
      destruct (Hget i Hlt) as (lo & hi & _ & _ & H3).
      rewrite Hi in H3. injection H3 as ->. apply int16_range.
    + intros Hz. pose proof (Int16Array_zero data l Hz Hl) as Hzero.
      apply Forall_forall. intros x Hx.
      apply list_elem_of_fmap in Hx. destruct Hx as (k & -> & Hk).
      rewrite Forall_forall in Hzero.
      rewrite (Hzero k Hk). reflexivity.
Qed.

Lemma decodeAudioData_samples_witness :
  (exists b,
     decodeAudioData ["000"; "128"; "255"; "127"]%byte = Some b /\
     length (samples b) = 2%nat /\
     samples b !! 0%nat = Some (inject_Z (-32768) / 32768)%Q /\
     samples b !! 1%nat = Some (inject_Z 32767 / 32768)%Q /\
     Forall (fun x => (-1 <= x)%Q /\ (x <= 1)%Q) (samples b)) /\
  (exists b,
     decodeAudioData ["000"; "000"; "000"; "000"]%byte = Some b /\
     Forall (fun x => (x == 0)%Q) (samples b)).
Proof.
  split.
  - destruct (decodeAudioData_samples ["000"; "128"; "255"; "127"]%byte 2
                ltac:(lia) eq_refl) as (b & H1 & _ & H3 & H4 & H5 & _).
    exists b. split; [exact H1|]. split; [exact H3|].
    destruct (H4 0%nat) as (lo0 & hi0 & L0 & U0 & S0); [lia|].
    destruct (H4 1%nat) as (lo1 & hi1 & L1 & U1 & S1); [lia|].
    injection L0 as <-. injection U0 as <-.
    injection L1 as <-. injection U1 as <-.
    split; [exact S0|]. split; [exact S1 | exact H5].
  - destruct (decodeAudioData_samples ["000"; "000"; "000"; "000"]%byte 2
                ltac:(lia) eq_refl) as (b & H1 & _ & _ & _ & _ & H6).
    exists b. split; [exact H1|]. apply H6. repeat constructor.
Defined.

(** C3 as stated fails for [sampleCount = 0].  The payload of no bytes
    has the length [2 * 0], and the claim has it decode to no samples;
    the code asks the platform for a buffer of zero frames, which the
    platform refuses, so nothing is decoded (in [playAudio] the
    [catch] block runs). *)
Lemma empty_payload_not_decoded :
  length ([] : Uint8Array) = (2 * 0)%nat /\
  Int16Array [] = Some [] /\
  createBuffer 1 0 24000 = None /\
  decodeAudioData [] = None /\
  ~ exists b, decodeAudioData [] = Some b /\ length (samples b) = 0%nat.
Proof.
  repeat split. intros (b & H & _). discriminate H.
Qed.

End AudioFacts.

(* ================================================================== *)
(** * The audio service: one channel, stop and failure *)
(* ================================================================== *)

Module AudioServiceFacts.
Import Platform Audio AudioService.

Section Generic.
Context {C : Type}.
Implicit Types (s : State C) (r : Run C) (n : SourceNode C).

Lemma silent_sounding s : silent s -> sounding s = [].
Proof.
  unfold silent, sounding. induction (nodes s) as [|n l IH]; intros H.
  - reflexivity.
  - inversion H as [|? ? Hn Hl]; subst. cbn [List.filter].
    unfold isPlayingNode at 1. destruct (playback n); try congruence;
      apply IH, Hl.
Qed.

Lemma node_stop_quiet n : playback (node_stop n) <> Playing.
Proof. unfold node_stop. destruct (playback n) eqn:E; simpl; congruence. Qed.

Lemma stop_currentSource s : currentSource (stop s) = None.
Proof. unfold stop. destruct (currentSource s) eqn:E; auto. Qed.

Lemma stop_idle s : currentSource s = None -> stop s = s.
Proof. unfold stop. intros ->. reflexivity. Qed.

Lemma stop_audioContext s : audioContext (stop s) = audioContext s.
Proof. unfold stop. destruct (currentSource s); reflexivity. Qed.

Lemma stop_silent s : exclusive s -> silent (stop s).
Proof.
  intros Hex. unfold silent, stop.
  destruct (currentSource s) as [i|] eqn:Hc; cbn [nodes].
  - apply Forall_lookup. intros j n Hj.
    rewrite list_lookup_alter in Hj.
    destruct (decide (i = j)) as [->|Hne].
    + destruct (nodes s !! j) as [n0|]; simplify_eq/=.
      apply node_stop_quiet.
    + intros Hp. specialize (Hex j n Hj Hp). congruence.
  - apply Forall_lookup. intros j n Hj Hp.
    specialize (Hex j n Hj Hp). congruence.
Qed.

Lemma silent_exclusive s : silent s -> exclusive s.
Proof.
  intros Hs i n Hi Hp. unfold silent in Hs.
  rewrite Forall_lookup in Hs. destruct (Hs i n Hi Hp).
Qed.

Lemma getContext_nodes env s s' c :
  getContext env s = Some (s', c) ->
  nodes s' = nodes s /\ currentSource s' = currentSource s.
Proof.
  unfold getContext. destruct (audioContext s).
  - intros [= <- <-]. auto.
  - destruct (deviceAvailable env); [|discriminate].
    intros [= <- <-]. auto.
Qed.

(** The part of [playAudio] before the [await] treats the nodes as
    [stop] does and leaves no current source. *)
Lemma playAudio_begin_nodes env base64Audio cb s :
  let '(s1, f, k) := playAudio_begin env base64Audio cb s in
  nodes s1 = nodes (stop s) /\ currentSource s1 = None /\
  (f = [] \/ f = invoke cb) /\
  (k = None -> f = invoke cb).
Proof.
  unfold playAudio_begin.
  destruct (getContext env (stop s)) as [[s1 c]|] eqn:Hg.
  - apply getContext_nodes in Hg. destruct Hg as [Hn Hc].
    rewrite stop_currentSource in Hc.
    destruct (decodeBase64 base64Audio); repeat split; auto; discriminate.
  - repeat split; auto using stop_currentSource.
Qed.

Lemma playAudio_resume_exclusive (k : Suspension C) s :
  silent s -> exclusive (fst (playAudio_resume k s)).
Proof.
  intros Hs. unfold playAudio_resume.
  destruct (decoded k); cbn [fst]; [|apply silent_exclusive, Hs].
  intros i n Hi Hp. cbn [nodes currentSource] in *.
  apply lookup_app_Some in Hi. destruct Hi as [Hi|[Hlen Hi]].
  - unfold silent in Hs. rewrite Forall_lookup in Hs.
    destruct (Hs i n Hi Hp).
  - destruct (i - length (nodes s))%nat eqn:E; [|discriminate Hi].
    f_equal. lia.
Qed.

Lemma playAudio_begin_silent env base64Audio cb s :
  exclusive s -> silent (fst (fst (playAudio_begin env base64Audio cb s))).
Proof.
  intros Hex. pose proof (playAudio_begin_nodes env base64Audio cb s) as H.
  destruct (playAudio_begin env base64Audio cb s) as [[s1 f] k].
  destruct H as (Hn & _). cbn [fst]. unfold silent. rewrite Hn.
  apply stop_silent, Hex.
Qed.

Lemma playAudio_exclusive env base64Audio cb s :
  exclusive s -> exclusive (fst (playAudio env base64Audio cb s)).
Proof.
  intros Hex. pose proof (playAudio_begin_silent env base64Audio cb s Hex) as H.
  unfold playAudio.
  destruct (playAudio_begin env base64Audio cb s) as [[s1 f] [k|]];
    cbn [fst] in H.
  - pose proof (playAudio_resume_exclusive k s1 H) as H'.
    destruct (playAudio_resume k s1) as [s2 f']. exact H'.
  - apply silent_exclusive, H.
Qed.

Lemma dispatchEnded_exclusive env i s :
  endedAfterStop env = false ->
  exclusive s -> exclusive (fst (dispatchEnded env i s)).
Proof.
  intros Hq Hex. unfold dispatchEnded.
  destruct (nodes s !! i) as [n|] eqn:Hi; [|exact Hex].
  destruct (canEnd env n) eqn:Hc; [|exact Hex].
  cbn [fst]. apply silent_exclusive.
  assert (Hp : playback n = Playing).
  { unfold canEnd in Hc. destruct (playback n); congruence. }
  pose proof (Hex i n Hi Hp) as Hcur.
  unfold silent. cbn [nodes]. apply Forall_lookup. intros j m Hj Hm.
  destruct (decide (i = j)) as [->|Hne].
  - rewrite list_lookup_insert_eq in Hj by (eapply lookup_lt_Some; eauto).
    injection Hj as <-. discriminate Hm.
  - rewrite list_lookup_insert_ne in Hj by exact Hne.
    pose proof (Hex j m Hj Hm). congruence.
Qed.

(** Where every [playAudio] is awaited and halted sources receive no
    [ended] event, only the current source can sound. *)
Lemma awaited_exclusive env (l : list (Action C)) :
  endedAfterStop env = false ->
  forall s, exclusive s -> exclusive (acts env l s).
Proof.
  intros Hq. unfold acts.
  induction l as [|a l IH]; intros s Hex; [exact Hex|].
  cbn [fold_left]. apply IH. destruct a as [b cb| |i]; cbn [act fst].
  - apply playAudio_exclusive, Hex.
  - apply silent_exclusive, stop_silent, Hex.
  - apply dispatchEnded_exclusive; assumption.
Qed.

Lemma filter_at_most_one (l : list (SourceNode C)) :
  (forall i j n m, l !! i = Some n -> l !! j = Some m ->
                   playback n = Playing -> playback m = Playing -> i = j) ->
  (length (List.filter isPlayingNode l) <= 1)%nat.
Proof.
  induction l as [|x l IH]; intros H; [simpl; lia|].
  cbn [List.filter]. destruct (isPlayingNode x) eqn:Hx.
  - assert (Hl : List.filter isPlayingNode l = []).
    { clear IH. assert (Hall : Forall (fun n => playback n <> Playing) l).
      { apply Forall_lookup. intros j m Hj Hm.
        assert (Hp : playback x = Playing)
          by (unfold isPlayingNode in Hx; destruct (playback x); congruence).
        specialize (H 0%nat (S j) x m eq_refl Hj Hp Hm). discriminate H. }
      clear H. induction Hall as [|m l Hm _ IH]; [reflexivity|].
      cbn [List.filter]. unfold isPlayingNode at 1.
      destruct (playback m); congruence. }
    rewrite Hl. simpl. lia.
  - apply IH. intros i j n m Hi Hj Hn Hm.
    specialize (H (S i) (S j) n m Hi Hj Hn Hm). lia.
Qed.

Lemma exclusive_sounding s :
  exclusive s -> (length (sounding s) <= 1)%nat.
Proof.
  intros Hex. apply filter_at_most_one. intros i j n m Hi Hj Hn Hm.
  pose proof (Hex i n Hi Hn). pose proof (Hex j m Hj Hm). congruence.
Qed.

(** A suspended call whose decoding was rejected, whenever it is
    resumed: the [catch] block only. *)
Lemma playAudio_resume_rejected (k : Suspension C) s :
  decoded k = None -> playAudio_resume k s = (s, invoke (callback k)).
Proof. intros H. unfold playAudio_resume. rewrite H. reflexivity. Qed.



Lemma dispatchEnded_once env i s :
  snd (dispatchEnded env i (fst (dispatchEnded env i s))) = [].
Proof.
  unfold dispatchEnded at 2.
  destruct (nodes s !! i) as [n|] eqn:Hi.
  - destruct (canEnd env n) eqn:Hc; cbn [fst].
    + unfold dispatchEnded. cbn [nodes].
      rewrite list_lookup_insert_eq by (eapply lookup_lt_Some; eauto).
      reflexivity.
    + unfold dispatchEnded. rewrite Hi, Hc. reflexivity.
  - cbn [fst]. unfold dispatchEnded. rewrite Hi. reflexivity.
Qed.

Lemma dispatchEnded_fired env i s s' :
  nodes s = nodes s' ->
  snd (dispatchEnded env i s) = snd (dispatchEnded env i s').
Proof.
  intros H. unfold dispatchEnded. rewrite H.
  destruct (nodes s' !! i) as [n|]; [|reflexivity].
  destruct (canEnd env n); reflexivity.
Qed.

Lemma alter_node_stop (l : list (SourceNode C)) i n :
  l !! i = Some n -> playback n = Playing ->
  alter node_stop i l = <[i := set_playback Halted n]> l.
Proof.
  intros Hi Hp. apply list_eq. intros j.
  rewrite list_lookup_alter, list_lookup_insert.
  destruct (decide (i = j)) as [->|Hne].
  - rewrite Hi. cbn. unfold node_stop. rewrite Hp.
    destruct (decide (j = j /\ (j < length l)%nat)) as [_|Hn];
      [reflexivity|].
    exfalso. apply Hn. split; [reflexivity|].
    eapply lookup_lt_Some; eauto.
  - destruct (decide (i = j /\ (i < length l)%nat)) as [[E _]|_];
      [contradiction | reflexivity].
Qed.

(** C2, as the code has it.  While a source is current and sounding:
    [stop()] invokes no callback, whether a caller invokes it or
    [playAudio] does as its first statement; in both cases that source
    is halted, keeps its buffer and its callback, and [currentSource]
    is cleared, and the two leave the same nodes; the only callback a
    [playAudio] call invokes itself is its own, in the [catch] block.
    On natural completion, the [ended] event of the source invokes its
    callback, and a second [ended] invokes nothing more.  [stop()]
    with no current source changes nothing. *)
Theorem stop_is_symmetric env r base64Audio (cb : option C) i n :
  currentSource (service r) = Some i ->
  nodes (service r) !! i = Some n ->
  playback n = Playing ->
  let halted :=
    <[i := {| buffer := buffer n; onEnded := onEnded n;
              playback := Halted |}]> (nodes (service r)) in
  (fired (step env r Stop) = fired r /\
   currentSource (service (step env r Stop)) = None /\
   nodes (service (step env r Stop)) = halted) /\
  ((fired (step env r (Play base64Audio cb)) = fired r \/
    fired (step env r (Play base64Audio cb)) = fired r ++ invoke cb) /\
   currentSource (service (step env r (Play base64Audio cb))) = None /\
   nodes (service (step env r (Play base64Audio cb))) = halted) /\
  (fired (step env r (SourceEnded i)) = fired r ++ invoke (onEnded n) /\
   fired (step env (step env r (SourceEnded i)) (SourceEnded i))
   = fired r ++ invoke (onEnded n)) /\
  (forall r0 : Run C,
     currentSource (service r0) = None -> step env r0 Stop = r0).
Proof.
  intros Hc Hi Hp halted.
  assert (Hstop : nodes (stop (service r)) = halted).
  { unfold stop. rewrite Hc. cbn [nodes]. apply alter_node_stop; assumption. }
  split; [|split; [|split]].
  - cbn [step service fired]. split; [reflexivity|].
    split; [apply stop_currentSource | exact Hstop].
  - pose proof (playAudio_begin_nodes env base64Audio cb (service r)) as Hb.
    cbn [step service fired].
    destruct (playAudio_begin env base64Audio cb (service r)) as [[s1 f] k].
    cbn [service fired]. destruct Hb as (Hn & Hcur & Hf & _).
    split; [destruct Hf as [-> | ->];
            [left; apply app_nil_r | right; reflexivity]|].
    split; [exact Hcur | rewrite Hn; exact Hstop].
  - pose proof (dispatchEnded_once env i (service r)) as Honce.
    cbn [step]. unfold dispatchEnded in *. rewrite Hi in *.
    unfold canEnd in *. rewrite Hp in *. cbn [fst snd service fired] in *.
    split; [reflexivity|].
    match goal with
    | |- context [let '(s, f) := ?d in _] => destruct d as [s2 f2]
    end.
    cbn [fired snd] in *. rewrite Honce. apply app_nil_r.
  - intros r0 Hidle. cbn [step]. rewrite (stop_idle _ Hidle).
    destruct r0; reflexivity.
Qed.

End Generic.



(** C1. Two [playAudio] calls made one after the other without
    awaiting the first: both pass [stop()] while [currentSource] is
    still empty, both are resumed, and both sources are started.  Two
    sources sound at once and [currentSource] refers to the second
    only, whatever the platform does with halted sources. *)
Theorem overlapping_play_both_sound :
  let r env := run env
                 [Play blip (Some 1%nat); Play blip (Some 2%nat);
                  Resume; Resume]
                 start in
  (map playback (nodes (service (r browser))) = [Playing; Playing] /\
   length (sounding (service (r browser))) = 2%nat /\
   currentSource (service (r browser)) = Some 1%nat /\
   suspended (r browser) = [] /\
   fired (r browser) = []) /\
  (map playback (nodes (service (r quiet))) = [Playing; Playing] /\
   length (sounding (service (r quiet))) = 2%nat /\
   currentSource (service (r quiet)) = Some 1%nat).
Proof. repeat split. Qed.

(** In a browser the same happens with awaited calls: the [ended]
    event of the superseded first source runs its handler, which
    clears [currentSource] while the second source sounds; the third
    call finds nothing to stop. *)
Lemma stale_ended_both_sound :
  let r := run browser
             [Play blip (Some 1%nat); Resume;
              Play blip (Some 2%nat); Resume;
              SourceEnded 0;
              Play blip (Some 3%nat); Resume]
             start in
  map playback (nodes (service r)) = [Ended; Playing; Playing] /\
  fired r = [1%nat].
Proof. repeat split. Qed.

Lemma stop_is_symmetric_witness :
  let r := run browser [Play blip (Some 1%nat); Resume] start in
  let silence := {| sampleRate := 24000; channelData := [[0 # 32768]%Q] |} in
  (fired (step browser r Stop) = [] /\
   nodes (service (step browser r Stop))
   = [{| buffer := silence; onEnded := Some 1%nat; playback := Halted |}]) /\
  (fired (step browser r (Play "AQA=" (Some 2%nat))) = [] /\
   nodes (service (step browser r (Play "AQA=" (Some 2%nat))))
   = [{| buffer := silence; onEnded := Some 1%nat; playback := Halted |}]) /\
  fired (step browser r (SourceEnded 0)) = [1%nat] /\
  step browser (@start nat) Stop = start.
Proof.
  destruct (stop_is_symmetric browser
              (run browser [Play blip (Some 1%nat); Resume] start)
              "AQA=" (Some 2%nat) 0
              {| buffer := {| sampleRate := 24000;
                              channelData := [[0 # 32768]%Q] |};
                 onEnded := Some 1%nat; playback := Playing |})
    as ((H1 & _ & H3) & (H4 & _ & H6) & (H7 & _) & H9);
    [reflexivity | reflexivity | reflexivity |].
  split; [split; [exact H1 | rewrite H3; reflexivity]|].
  split; [split; [reflexivity | rewrite H6; reflexivity]|].
  split; [exact H7|]. apply (H9 start). reflexivity.
Defined.

(** C2 as stated fails whatever the platform does with a halted
    source.  A playback with callback 1 is superseded by a second
    [playAudio], or stopped by [stop()]; then the platform gets the
    chance to dispatch [ended] to the first source.  In a browser
    callback 1 runs in both runs, on the quiet platform in neither: in
    no case is it kept silent by the superseding call and fired by the
    explicit one. *)
Lemma stop_asymmetry_refuted :
  let superseded env :=
    run env [Play blip (Some 1%nat); Resume;
             Play blip (Some 2%nat); Resume; SourceEnded 0] start in
  let stopped env :=
    run env [Play blip (Some 1%nat); Resume; Stop; SourceEnded 0] start in
  (fired (superseded browser) = [1%nat] /\
   fired (stopped browser) = [1%nat] /\
   fired (superseded quiet) = [] /\
   fired (stopped quiet) = []) /\
  ~ (~ In 1%nat (fired (superseded browser)) /\
     count_occ Nat.eq_dec (fired (stopped browser)) 1%nat = 1%nat) /\
  ~ (~ In 1%nat (fired (superseded quiet)) /\
     count_occ Nat.eq_dec (fired (stopped quiet)) 1%nat = 1%nat).
Proof.
  split; [repeat split|]. split.
  - intros [H _]. apply H. left. reflexivity.
  - intros [_ H]. discriminate H.
Qed.

End AudioServiceFacts.

(* ================================================================== *)
(** * The interview session: submitting an answer, narration *)
(* ================================================================== *)

Module SessionFacts.
Import Js Session.

Section Component.
Context (selectedSkills : list Skill) (env : Env).

#[local] Abbreviation handleSendMessage :=
  (handleSendMessage selectedSkills env).
#[local] Abbreviation handlePlayAudio := (handlePlayAudio env).
#[local] Abbreviation callPlayAudio := (callPlayAudio env).
#[local] Abbreviation step := (step selectedSkills env).
#[local] Abbreviation run := (run selectedSkills env).
#[local] Abbreviation mount := (mount selectedSkills env).
#[local] Abbreviation wellFormed := (wellFormed selectedSkills env).

Lemma truthy_false (x : string) : truthy x = false <-> x = "".
Proof. destruct x; simpl; split; congruence. Qed.

Lemma system_eta (s : System) :
  {| world := world s; pending := pending s |} = s.
Proof. destruct s; reflexivity. Qed.

Lemma callSendMessage_rejected (s : System) :
  trim (inputText (world s)) = "" \/ messages (world s) = [] ->
  callSendMessage selectedSkills env s = s.
Proof.
  intros H. unfold callSendMessage, Session.handleSendMessage.
  destruct (truthy (trim (inputText (world s)))) eqn:Ht; cbn [negb].
  - destruct H as [H|H].
    + apply truthy_false in H. congruence.
    + rewrite H. cbn [last after awaits]. rewrite app_nil_r.
      apply system_eta.
  - cbn [after awaits]. rewrite app_nil_r. apply system_eta.
Qed.


(** C9. With a non-empty trimmed text, [handleSendMessage] reads
    [messages[messages.length - 1].text] first of all.  On an empty
    transcript that access throws a [TypeError]: the call ends there,
    outside the [try] block, with the state as it was and nothing
    awaited.  On a non-empty transcript nothing is thrown and the text
    of the last turn, whoever spoke it, is the question sent to the
    evaluator together with the typed answer. *)
Theorem handleSendMessage_needs_transcript (w : World) :
  truthy (trim (inputText w)) = true ->
  (messages w = [] ->
   handleSendMessage w =
     {| after := w; awaits := []; thrown := Some TypeError |}) /\
  (forall m, last (messages w) = Some m ->
     thrown (handleSendMessage w) = None /\
     exists k, awaits (handleSendMessage w) =
                 [AwaitValidate (text m) (inputText w) k]).
Proof.
  intros Ht. unfold Session.handleSendMessage. rewrite Ht. cbn [negb].
  split.
  - intros ->. reflexivity.
  - intros m ->. cbn [thrown awaits text]. split; [reflexivity|].
    eexists. reflexivity.
Qed.

(** ** Narration leaves the session alone *)

Lemma runCallbacks_sameSession (cbs : list Callback) (w : World) :
  sameSession w (runCallbacks cbs w).
Proof.
  unfold runCallbacks. revert w.
  induction cbs as [|cb cbs IH]; intros w; [repeat split|].
  cbn [fold_left]. destruct (IH (runCallback w cb)) as (H1 & H2 & H3).
  destruct cb. repeat split; assumption.
Qed.

Lemma callPlayAudio_narration (audioData : string) (w : World) :
  sameSession w (fst (callPlayAudio audioData w)) /\
  Forall narration (snd (callPlayAudio audioData w)).
Proof.
  unfold Session.callPlayAudio.
  destruct (playAudio_begin env audioData (Some ResetIsPlaying) (audio w))
    as [[a fired] [k|]]; cbn [fst snd].
  - split; [apply (runCallbacks_sameSession fired (setAudio a w))|].
    constructor; [|constructor]. apply hereditarily_decode. intros w' _.
    destruct (playAudio_resume k (audio w')) as [a' fired']. cbn [fst snd].
    split; [apply (runCallbacks_sameSession fired' (setAudio a' w'))|].
    constructor.
  - split; [apply (runCallbacks_sameSession fired (setAudio a w))|].
    constructor.
Qed.

Lemma handlePlayAudio_narration (isPlaying0 : bool) (text0 : string)
    (w : World) :
  sameSession w (fst (handlePlayAudio isPlaying0 text0 w)) /\
  Forall narration (snd (handlePlayAudio isPlaying0 text0 w)).
Proof.
  unfold Session.handlePlayAudio. destruct isPlaying0; cbn [fst snd].
  - split; [repeat split | constructor].
  - split; [repeat split|]. constructor; [|constructor].
    apply hereditarily_speech. intros [data|] w' _.
    + destruct (truthy data); [apply callPlayAudio_narration|].
      split; [repeat split | constructor].
    + split; [repeat split | constructor].
Qed.

(** C7. Every path through a [handleSendMessage] call ends with
    [isLoading] cleared.  On the two paths that return before the
    [try] block (empty trimmed text, empty transcript) the flag is never
    set.  Otherwise the call sets it and awaits the evaluation; if that
    await throws, the [finally] block clears the flag and nothing else
    is awaited; if it resolves, the call awaits the next question and,
    whether that await resolves or throws, clears the flag, leaving
    only narration awaits, which never touch it. *)
Theorem cycle_clears_isLoading (w : World) :
  (truthy (trim (inputText w)) = false \/ messages w = [] ->
   after (handleSendMessage w) = w /\ awaits (handleSendMessage w) = []) /\
  (truthy (trim (inputText w)) = true -> messages w <> [] ->
   isLoading (after (handleSendMessage w)) = true /\
   thrown (handleSendMessage w) = None /\
   exists question answer k1,
     awaits (handleSendMessage w) = [AwaitValidate question answer k1] /\
     (forall e w1,
        isLoading (fst (k1 (Rejected e) w1)) = false /\
        snd (k1 (Rejected e) w1) = []) /\
     (forall validation w1,
        exists previous k2,
          snd (k1 (Fulfilled validation) w1)
            = [AwaitQuestion selectedSkills previous k2] /\
          forall r w2,
            isLoading (fst (k2 r w2)) = false /\
            Forall narration (snd (k2 r w2)))).
Proof.
  unfold Session.handleSendMessage. split.
  - intros [Ht | Hm].
    + rewrite Ht. split; reflexivity.
    + destruct (truthy (trim (inputText w))); cbn [negb];
        [rewrite Hm|]; split; reflexivity.
  - intros Ht Hm. rewrite Ht. cbn [negb].
    destruct (last (messages w)) as [m|] eqn:Hlast;
      [|apply last_None in Hlast; contradiction].
    cbn [after awaits thrown]. split; [reflexivity|]. split; [reflexivity|].
    do 3 eexists. split; [reflexivity|]. split.
    + intros e w1. split; reflexivity.
    + intros validation w1. do 2 eexists. cbn [snd].
      split; [reflexivity|].
      intros [nextQuestion|e] w2; [|split; [reflexivity | constructor]].
      match goal with
      | |- context [Session.handlePlayAudio ?e ?p ?t ?x] =>
          pose proof (handlePlayAudio_narration p t x) as [Hs Hn];
          destruct (Session.handlePlayAudio e p t x) as [w3 ts]
      end.
      cbn [fst snd] in *. split; [reflexivity | exact Hn].
Qed.

(** ** The transcript only grows *)

Lemma sameTurn_refl (m : Message) : sameTurn m m.
Proof. repeat split; auto. Qed.

Lemma sameTurn_trans (m1 m2 m3 : Message) :
  sameTurn m1 m2 -> sameTurn m2 m3 -> sameTurn m1 m3.
Proof.
  intros (H1 & H2 & H3 & H4 & H5) (G1 & G2 & G3 & G4 & G5).
  repeat split; try congruence; auto.
Qed.

Lemma Forall2_sameTurn_refl (l : list Message) : Forall2 sameTurn l l.
Proof. induction l; constructor; auto using sameTurn_refl. Qed.

Lemma extends_refl (l : list Message) : extends l l.
Proof.
  exists l, []. split; [symmetry; apply app_nil_r|].
  apply Forall2_sameTurn_refl.
Qed.

Lemma extends_trans (l1 l2 l3 : list Message) :
  extends l1 l2 -> extends l2 l3 -> extends l1 l3.
Proof.
  intros (a & b & -> & Hab) (c & d & -> & Hcd).
  apply Forall2_app_inv_l in Hcd. destruct Hcd as (c1 & c2 & Hc1 & Hc2 & ->).
  exists c1, (c2 ++ d). split; [symmetry; apply app_assoc|].
  clear Hc2. revert c1 Hc1.
  induction Hab as [|x y l l' Hxy Hl IH]; intros c1 Hc1.
  - exact Hc1.
  - inversion Hc1 as [|? z ? c1' Hyz Hc1']; subst.
    constructor; [eapply sameTurn_trans; eauto | apply IH, Hc1'].
Qed.

Lemma extends_lookup (l l' : list Message) (j : nat) (u : Message) :
  extends l l' -> l !! j = Some u ->
  exists u', l' !! j = Some u' /\ sameTurn u u'.
Proof.
  intros (l1 & l2 & -> & H) Hj.
  destruct (Forall2_lookup_l _ _ _ _ _ H Hj) as (u' & Hu' & Hs).
  exists u'. split; [apply lookup_app_l_Some, Hu' | exact Hs].
Qed.

Lemma sameTurn_withValidation (validation : Validation) (m : Message) :
  sameTurn m (withValidation validation m).
Proof. repeat split; intros _; eexists; reflexivity. Qed.

Lemma attachValidation_sameTurn (userId : string) (validation : Validation)
    (l : list Message) :
  Forall2 sameTurn l (attachValidation userId validation l).
Proof.
  unfold attachValidation. induction l as [|m l IH]; constructor; [|exact IH].
  destruct (String.eqb (id m) userId);
    [apply sameTurn_withValidation | apply sameTurn_refl].
Qed.

Lemma transcriptStep_extends (l l' : list Message) :
  transcriptStep l l' -> extends l l'.
Proof.
  intros [(new & ->) | (userId & validation & ->)].
  - exists l, new. split; [reflexivity | apply Forall2_sameTurn_refl].
  - exists (attachValidation userId validation l), [].
    split; [symmetry; apply app_nil_r | apply attachValidation_sameTurn].
Qed.

Lemma attachValidation_lookup (userId : string) (validation : Validation)
    (l : list Message) (j : nat) (u : Message) :
  l !! j = Some u -> id u = userId ->
  attachValidation userId validation l !! j
    = Some (withValidation validation u).
Proof.
  intros Hj Hid. unfold attachValidation.
  change (map ?f l) with (f <$> l).
  rewrite list_lookup_fmap, Hj. cbn [fmap option_fmap option_map].
  rewrite Hid, String.eqb_refl. reflexivity.
Qed.

(** C10. One [handleSendMessage] call makes its two requests one after
    the other.  After the submission only the evaluation is awaited.
    When it resolves, the continuation first attaches feedback and score
    to the submitted USER turn and only then requests the next question,
    which is then the only await of the call; if the evaluation throws,
    no question is requested at all.  When the question arrives the AI
    turn is appended behind a transcript in which the USER turn already
    carries its feedback and score. *)
Theorem evaluation_then_question (w : World) (m : Message) :
  truthy (trim (inputText w)) = true ->
  last (messages w) = Some m ->
  let j := length (messages w) in
  let userMsg := {| id := toString (clock w); role := user;
                    text := inputText w;
                    feedback := None; score := None |} in
  exists k1,
    awaits (handleSendMessage w)
      = [AwaitValidate (text m) (inputText w) k1] /\
    messages (after (handleSendMessage w)) = messages w ++ [userMsg] /\
    (forall e w1, k1 (Rejected e) w1 = (setIsLoading false w1, [])) /\
    (forall validation w1,
       extends (messages (after (handleSendMessage w))) (messages w1) ->
       exists k2,
         snd (k1 (Fulfilled validation) w1)
           = [AwaitQuestion selectedSkills
                (map text (List.filter isAi (messages w))) k2] /\
         messages (fst (k1 (Fulfilled validation) w1))
           = attachValidation (id userMsg) validation (messages w1) /\
         (exists u,
            messages (fst (k1 (Fulfilled validation) w1)) !! j = Some u /\
            id u = id userMsg /\ role u = user /\ text u = text userMsg /\
            feedback u = Some (validationFeedback validation) /\
            score u = Some (validationScore validation)) /\
         (forall nextQuestion w2,
            extends (messages (fst (k1 (Fulfilled validation) w1)))
                    (messages w2) ->
            messages (fst (k2 (Fulfilled nextQuestion) w2))
              = messages w2 ++
                  [{| id := toString (clock w2 + 1); role := ai;
                      text := nextQuestion;
                      feedback := None; score := None |}] /\
            exists u,
              messages (fst (k2 (Fulfilled nextQuestion) w2)) !! j
                = Some u /\
              role u = user /\
              is_Some (feedback u) /\ is_Some (score u))).
Proof.
  intros Ht Hlast j userMsg.
  unfold Session.handleSendMessage. rewrite Ht, Hlast. cbn [negb].
  cbn [after awaits]. eexists. split; [reflexivity|].
  split; [reflexivity|]. split; [reflexivity|].
  intros validation w1 Hext. eexists. cbn [fst snd].
  split; [reflexivity|]. split; [reflexivity|].
  cbn [messages setMessages setInputText setIsLoading] in Hext.
  assert (Hj : (messages w ++ [userMsg]) !! j = Some userMsg)
    by (apply list_lookup_middle; reflexivity).
  destruct (extends_lookup _ _ _ _ Hext Hj) as (u1 & Hu1 & Hs1).
  destruct Hs1 as (Hid & Hrole & Htext & _ & _).
  pose proof (attachValidation_lookup (id userMsg) validation _ _ _ Hu1
                (eq_sym Hid)) as Hatt.
  split.
  - exists (withValidation validation u1). cbn [messages setMessages].
    split; [exact Hatt|]. cbn [withValidation id role text feedback score].
    repeat split; symmetry; assumption.
  - intros nextQuestion w2 Hext2.
    cbn [messages setMessages] in Hext2.
    destruct (extends_lookup _ _ _ _ Hext2 Hatt) as (u2 & Hu2 & Hs2).
    destruct Hs2 as (_ & Hrole2 & _ & Hf2 & Hsc2).
    match goal with
    | |- context [Session.handlePlayAudio ?e ?p ?t ?x] =>
        pose proof (handlePlayAudio_narration p t x) as [[Hm _] _];
        destruct (Session.handlePlayAudio e p t x) as [w3 ts]
    end.
    cbn [fst snd messages setMessages setIsLoading] in *.
    split; [exact Hm|]. exists u2. rewrite Hm.
    split; [apply lookup_app_l_Some, Hu2|].
    cbn [withValidation role feedback score] in *.
    split; [rewrite <- Hrole2, <- Hrole; reflexivity|].
    split; [apply Hf2 | apply Hsc2]; eexists; reflexivity.
Qed.

Lemma transcriptStep_same (w w' : World) :
  messages w' = messages w -> transcriptStep (messages w) (messages w').
Proof. intros ->. left. exists []. symmetry. apply app_nil_r. Qed.

(** A weaker relation and fewer admitted responses give a weaker
    property; the recursion goes through the list of awaits that a
    continuation leaves. *)
Lemma hereditarily_mono (ok ok' : Response -> Prop)
    (R R' : World -> World -> Prop) :
  (forall r, ok' r -> ok r) ->
  (forall w w', R w w' -> R' w w') ->
  forall t, hereditarily ok R t -> hereditarily ok' R' t.
Proof.
  intros Hok HR.
  fix IH 2. intros t Ht.
  assert (Hall : forall l, Forall (hereditarily ok R) l ->
                           Forall (hereditarily ok' R') l).
  { clear t Ht. fix go 2. intros l Hl.
    destruct Hl as [|x l Hx Hl']; constructor.
    - apply IH, Hx.
    - apply go, Hl'. }
  destruct Ht as [q a k H|sk p k H|sp k H|k H]; constructor.
  - intros r w Hr. destruct (H r w (Hok _ Hr)) as [H1 H2].
    split; [apply HR, H1 | apply Hall, H2].
  - intros r w Hr. destruct (H r w (Hok _ Hr)) as [H1 H2].
    split; [apply HR, H1 | apply Hall, H2].
  - intros r w Hr. destruct (H r w (Hok _ Hr)) as [H1 H2].
    split; [apply HR, H1 | apply Hall, H2].
  - intros w Hr. destruct (H w (Hok _ Hr)) as [H1 H2].
    split; [apply HR, H1 | apply Hall, H2].
Qed.

Lemma narration_orderly (t : Task) : narration t -> orderly t.
Proof.
  apply hereditarily_mono; [auto|].
  intros w w' (Hm & _). apply transcriptStep_same, Hm.
Qed.

Lemma handlePlayAudio_orderly (isPlaying0 : bool) (text0 : string)
    (w : World) :
  Forall orderly (snd (handlePlayAudio isPlaying0 text0 w)).
Proof.
  eapply Forall_impl; [apply handlePlayAudio_narration|].
  apply narration_orderly.
Qed.

Lemma handleSendMessage_orderly (w : World) :
  transcriptStep (messages w) (messages (after (handleSendMessage w))) /\
  Forall orderly (awaits (handleSendMessage w)).
Proof.
  unfold Session.handleSendMessage.
  destruct (negb (truthy (trim (inputText w))));
    [split; [apply transcriptStep_same; reflexivity | constructor]|].
  destruct (last (messages w)) as [m|];
    [|split; [apply transcriptStep_same; reflexivity | constructor]].
  cbn [after awaits]. split; [left; eexists; reflexivity|].
  constructor; [|constructor]. apply hereditarily_validate.
  intros [validation|e] w1 _; cbn [fst snd];
    [|split; [apply transcriptStep_same; reflexivity | constructor]].
  split; [right; do 2 eexists; reflexivity|].
  constructor; [|constructor]. apply hereditarily_question.
  intros [nextQuestion|e] w2 _; cbn [fst snd];
    [|split; [apply transcriptStep_same; reflexivity | constructor]].
  match goal with
  | |- context [Session.handlePlayAudio ?e ?p ?t ?x] =>
      pose proof (handlePlayAudio_narration p t x) as [[Hm _] _];
      pose proof (handlePlayAudio_orderly p t x) as Ho;
      destruct (Session.handlePlayAudio e p t x) as [w3 ts]
  end.
  cbn [fst snd messages setMessages setIsLoading] in *.
  split; [left; eexists; exact Hm | exact Ho].
Qed.

Lemma hereditarily_resume (ok : Response -> Prop)
    (R : World -> World -> Prop) (t : Task) (r : Response)
    (k : World -> World * list Task) (w : World) :
  hereditarily ok R t -> resume t r = Some k -> ok r ->
  R w (fst (k w)) /\ Forall (hereditarily ok R) (snd (k w)).
Proof.
  intros Ht Hr Hok.
  destruct Ht as [q a k' H|sk p k' H|sp k' H|k' H]; destruct r;
    cbn [resume] in Hr; try discriminate Hr;
    injection Hr as <-; apply H, Hok.
Qed.

(** Every event takes a well-formed system to a well-formed system and
    changes the transcript by one step. *)
Lemma step_wellFormed (s : System) (e : Event) :
  wellFormed s ->
  transcriptStep (messages (world s)) (messages (world (step s e))) /\
  wellFormed (step s e).
Proof.
  intros Hwf.
  assert (Hstay : transcriptStep (messages (world s)) (messages (world s)))
    by (apply transcriptStep_same; reflexivity).
  destruct e as [now|value| | |i|i r|n]; cbn [Session.step].
  - (* Tick *)
    split; [exact Hstay|]. destruct Hwf as [(Hm & Hl & Hp)|Ho];
      [left; repeat split; assumption | right; exact Ho].
  - (* Change *)
    unfold textareaDisabled.
    destruct (isLoading (world s)) eqn:Hl; [split; assumption|].
    split; [exact Hstay|]. destruct Hwf as [(_ & Hl' & _)|Ho];
      [congruence | right; exact Ho].
  - (* ClickSend *)
    unfold sendDisabled. destruct Hwf as [(Hm & Hl & Hp)|Ho].
    + rewrite Hl, orb_true_r. split; [exact Hstay|].
      left; repeat split; assumption.
    + destruct (negb (truthy (trim (inputText (world s)))) ||
                isLoading (world s)); [split; [exact Hstay | right; exact Ho]|].
      unfold callSendMessage. cbn [world pending].
      destruct (handleSendMessage_orderly (world s)) as [H1 H2].
      split; [exact H1|]. right. apply Forall_app. split; assumption.
  - (* KeyEnter *)
    unfold textareaDisabled. destruct Hwf as [(Hm & Hl & Hp)|Ho].
    + rewrite Hl. split; [exact Hstay|]. left; repeat split; assumption.
    + destruct (isLoading (world s)); [split; [exact Hstay | right; exact Ho]|].
      unfold callSendMessage. cbn [world pending].
      destruct (handleSendMessage_orderly (world s)) as [H1 H2].
      split; [exact H1|]. right. apply Forall_app. split; assumption.
  - (* ClickReadAloud *)
    destruct (messages (world s) !! i) as [m|] eqn:Hi;
      [|split; assumption].
    destruct (isAi m); [|split; assumption].
    destruct Hwf as [(Hm & _ & _)|Ho]; [rewrite Hm in Hi; discriminate Hi|].
    pose proof (handlePlayAudio_narration (isPlaying (world s)) (text m)
                  (world s)) as [[Hmsg _] _].
    pose proof (handlePlayAudio_orderly (isPlaying (world s)) (text m)
                  (world s)) as Hts.
    destruct (Session.handlePlayAudio env (isPlaying (world s)) (text m)
                (world s)) as [w' ts].
    cbn [fst snd world pending] in *.
    split; [apply transcriptStep_same, Hmsg|].
    right. apply Forall_app. split; assumption.
  - (* Settle *)
    destruct (pending s !! i) as [t|] eqn:Hi; [|split; assumption].
    destruct (resume t r) as [k|] eqn:Hr; [|split; assumption].
    destruct Hwf as [(Hm & Hl & Hp)|Ho].
    + rewrite Hp in Hi. cbn [startInterview snd] in Hi.
      destruct i as [|i]; [|discriminate Hi].
      injection Hi as <-. destruct r as [ | r | | ]; try discriminate Hr.
      injection Hr as <-. rewrite Hp. cbn [startInterview snd delete].
      destruct r as [question|e].
      * split.
        -- cbn. rewrite Hm. left. eexists. reflexivity.
        -- right.
           exact (handlePlayAudio_orderly false question
                    (setIsLoading false
                       (setMessages
                          (fun _ => [{| id := "init"; role := ai;
                                        text := question;
                                        feedback := None; score := None |}])
                          (world s)))).
      * cbn [world pending]. split; [exact Hstay | right; constructor].
    + assert (Ht : orderly t).
      { rewrite Forall_lookup in Ho. exact (Ho i t Hi). }
      destruct (hereditarily_resume _ _ t r k (world s) Ht Hr I) as [H1 H2].
      destruct (k (world s)) as [w' ts]. cbn [fst snd world pending] in *.
      split; [exact H1|]. right. apply Forall_app. split; [|exact H2].
      apply Forall_delete, Ho.
  - (* SourceEnded *)
    destruct (dispatchEnded env n (audio (world s))) as [a fired].
    cbn [world pending].
    pose proof (runCallbacks_sameSession fired (setAudio a (world s)))
      as (Hmsg & _ & Hload).
    cbn [messages isLoading setAudio] in Hmsg, Hload.
    split; [apply transcriptStep_same, Hmsg|].
    destruct Hwf as [(Hm & Hl & Hp)|Ho]; [left | right; exact Ho].
    cbn [world pending]. split; [rewrite Hmsg; exact Hm|].
    split; [rewrite Hload; exact Hl | exact Hp].
Qed.

Lemma mount_wellFormed (a : AudioService.State Callback) (now : Z) :
  wellFormed (mount a now).
Proof. left. repeat split. Qed.

Lemma run_wellFormed (es : list Event) :
  forall s, wellFormed s -> wellFormed (run es s).
Proof.
  unfold Session.run. induction es as [|e es IH]; intros s Hwf; [exact Hwf|].
  cbn [fold_left]. apply IH, step_wellFormed, Hwf.
Qed.

Lemma run_extends (es : list Event) :
  forall s, wellFormed s ->
    extends (messages (world s)) (messages (world (run es s))).
Proof.
  unfold Session.run. induction es as [|e es IH]; intros s Hwf;
    [apply extends_refl|].
  cbn [fold_left]. destruct (step_wellFormed s e Hwf) as [H1 H2].
  eapply extends_trans; [apply transcriptStep_extends, H1 | apply IH, H2].
Qed.

(** From mounting on, whatever the user, the collaborators, the clock
    and the audio platform do: no turn is ever removed or moved, no
    turn's id, speaker or text changes, feedback and score stay once
    set, and each event either appends turns or attaches one evaluation
    to the turns with one id. *)
Lemma transcript_append_only (a : AudioService.State Callback) (now : Z)
    (es es' : list Event) (e : Event) :
  extends (messages (world (run es (mount a now))))
          (messages (world (run (es ++ es') (mount a now)))) /\
  transcriptStep (messages (world (run es (mount a now))))
                 (messages (world (step (run es (mount a now)) e))).
Proof.
  pose proof (run_wellFormed es _ (mount_wellFormed a now)) as Hwf.
  split.
  - unfold Session.run at 2. rewrite fold_left_app.
    apply (run_extends es' _ Hwf).
  - apply step_wellFormed, Hwf.
Qed.

(** ** While the session awaits an answer, the last turn is a question *)











(** C4, as the code has it.  The audio button of an AI turn decides
    between play and stop from the one [isPlaying] flag of the session,
    not from the turn it belongs to.  While the flag is set, a click on
    the button of any AI turn stops the audio service and clears the
    flag, and nothing else: no synthesis is requested for the turn that
    was clicked.  While the flag is clear, the click sets it and requests
    synthesis of that turn's text; the payload, when it arrives, is
    passed to [playAudio] (which supersedes whatever the service was
    playing), and without a payload the flag is cleared again. *)
Theorem read_aloud_toggles_on_flag (s : System) (i : nat) (m : Message) :
  messages (world s) !! i = Some m ->
  role m = ai ->
  (isPlaying (world s) = true ->
   world (step s (ClickReadAloud i))
     = setIsPlaying false (setAudio (stop (audio (world s))) (world s)) /\
   pending (step s (ClickReadAloud i)) = pending s) /\
  (isPlaying (world s) = false ->
   world (step s (ClickReadAloud i)) = setIsPlaying true (world s) /\
   exists k,
     pending (step s (ClickReadAloud i))
       = pending s ++ [AwaitSpeech (text m) k] /\
     (forall w, k None w = (setIsPlaying false w, [])) /\
     (forall w, k (Some "") w = (setIsPlaying false w, [])) /\
     (forall data w, truthy data = true ->
                     k (Some data) w = callPlayAudio data w)).
Proof.
  intros Hi Hrole. cbn [Session.step]. rewrite Hi.
  unfold isAi. rewrite Hrole. unfold Session.handlePlayAudio.
  split; intros ->; cbn [world pending].
  - split; [reflexivity | apply app_nil_r].
  - split; [reflexivity|]. eexists. split; [reflexivity|].
    split; [reflexivity|]. split; [reflexivity|].
    intros data w ->. reflexivity.
Qed.

End Component.

Lemma read_aloud_toggles_on_flag_witness :
  let s := Session.run [goSkill] browser secondQuestionSounding
             (Session.mount [goSkill] browser initial 0) in
  let s0 := Session.step [goSkill] browser s (SourceEnded 1) in
  (world (Session.step [goSkill] browser s (ClickReadAloud 2))
     = setIsPlaying false (setAudio (stop (audio (world s))) (world s)) /\
   pending (Session.step [goSkill] browser s (ClickReadAloud 2))
     = pending s) /\
  (world (Session.step [goSkill] browser s0 (ClickReadAloud 0))
     = setIsPlaying true (world s0) /\
   exists k,
     pending (Session.step [goSkill] browser s0 (ClickReadAloud 0))
       = pending s0 ++ [AwaitSpeech "Q1" k] /\
     k (Some blip) (world s0) = Session.callPlayAudio browser blip (world s0)).
Proof.
  split.
  - refine (proj1 (read_aloud_toggles_on_flag [goSkill] browser
                     (Session.run [goSkill] browser secondQuestionSounding
                        (Session.mount [goSkill] browser initial 0))
                     2%nat
                     {| id := "5001"; role := ai; text := "Q2";
                        feedback := None; score := None |} _ _) _);
      reflexivity.
  - destruct (proj2 (read_aloud_toggles_on_flag [goSkill] browser
                       (Session.step [goSkill] browser
                          (Session.run [goSkill] browser secondQuestionSounding
                             (Session.mount [goSkill] browser initial 0))
                          (SourceEnded 1))
                       0%nat firstQuestion eq_refl eq_refl) eq_refl)
      as (H1 & k & H2 & _ & _ & H5).
    split; [exact H1|]. exists k. split; [exact H2|].
    apply H5. reflexivity.
Defined.



Lemma handleSendMessage_needs_transcript_witness :
  let w := setMessages (fun _ => []) answering in
  Session.handleSendMessage [goSkill] browser w
    = {| after := w; awaits := []; thrown := Some Js.TypeError |} /\
  thrown (Session.handleSendMessage [goSkill] browser answering) = None /\
  exists k,
    awaits (Session.handleSendMessage [goSkill] browser answering)
      = [AwaitValidate "Q1" "I use goroutines" k].
Proof.
  split.
  - apply (proj1 (handleSendMessage_needs_transcript [goSkill] browser
                    (setMessages (fun _ => []) answering) eq_refl)).
    reflexivity.
  - apply (proj2 (handleSendMessage_needs_transcript [goSkill] browser
                    answering eq_refl) firstQuestion).
    reflexivity.
Defined.

Lemma cycle_clears_isLoading_witness :
  (after (Session.handleSendMessage [goSkill] browser
            (setInputText "  " answering))
     = setInputText "  " answering) /\
  isLoading (after (Session.handleSendMessage [goSkill] browser answering))
    = true /\
  exists question answer k1,
    awaits (Session.handleSendMessage [goSkill] browser answering)
      = [AwaitValidate question answer k1] /\
    (forall e w1,
       isLoading (fst (k1 (Js.Rejected e) w1)) = false /\
       snd (k1 (Js.Rejected e) w1) = []) /\
    (forall validation w1,
       exists previous k2,
         snd (k1 (Js.Fulfilled validation) w1)
           = [AwaitQuestion [goSkill] previous k2] /\
         forall r w2,
           isLoading (fst (k2 r w2)) = false /\
           Forall narration (snd (k2 r w2))).
Proof.
  split.
  - apply (proj1 (cycle_clears_isLoading [goSkill] browser
                    (setInputText "  " answering))).
    left. reflexivity.
  - destruct (proj2 (cycle_clears_isLoading [goSkill] browser answering))
      as (H1 & _ & H3); [reflexivity | discriminate |].
    split; [exact H1 | exact H3].
Defined.

Lemma evaluation_then_question_witness :
  let w0 := after (Session.handleSendMessage [goSkill] browser answering) in
  exists k1 k2,
    awaits (Session.handleSendMessage [goSkill] browser answering)
      = [AwaitValidate "Q1" "I use goroutines" k1] /\
    snd (k1 (Js.Fulfilled good) w0) = [AwaitQuestion [goSkill] ["Q1"] k2] /\
    (exists u,
       messages (fst (k1 (Js.Fulfilled good) w0)) !! 1%nat = Some u /\
       feedback u = Some "Good" /\ score u = Some 8) /\
    (exists u,
       messages (fst (k2 (Js.Fulfilled "Q2") (fst (k1 (Js.Fulfilled good) w0))))
         !! 1%nat = Some u /\
       role u = user /\ is_Some (feedback u) /\ is_Some (score u)).
Proof.
  destruct (evaluation_then_question [goSkill] browser answering
              firstQuestion eq_refl eq_refl) as (k1 & H1 & _ & _ & H4).
  destruct (H4 good
              (after (Session.handleSendMessage [goSkill] browser answering))
              (extends_refl _)) as (k2 & G1 & _ & G3 & G4).
  destruct (G4 "Q2" _ (extends_refl _)) as (_ & F2).
  exists k1, k2. split; [exact H1|]. split; [exact G1|].
  split; [|exact F2].
  destruct G3 as (u & Hu & _ & _ & _ & Hf & Hs).
  exists u. split; [exact Hu|]. split; [exact Hf | exact Hs].
Defined.

(** C6.  The second question was created at clock reading 5000 and has
    id "5001"; the next answer is sent at clock reading 5001 and gets
    the same id.  When its evaluation arrives, feedback and score are
    attached to every turn with that id: the AI turn "Q2", untouched
    until then, now carries the feedback and score of the answer that
    followed it. *)
Theorem colliding_id_marks_ai_turn :
  let before := Session.run [goSkill] browser secondQuestionSounding
                  (Session.mount [goSkill] browser initial 0) in
  let later := Session.run [goSkill] browser nextAnswer before in
  messages (world before) !! 2%nat
    = Some {| id := "5001"; role := ai; text := "Q2";
              feedback := None; score := None |} /\
  messages (world later)
    = [ firstQuestion;
        {| id := "1000"; role := user; text := "I use goroutines";
           feedback := Some "Good"; score := Some 8 |};
        {| id := "5001"; role := ai; text := "Q2";
           feedback := Some "Too short"; score := Some 3 |};
        {| id := "5001"; role := user; text := "With channels";
           feedback := Some "Too short"; score := Some 3 |} ].
Proof. split; reflexivity. Qed.

(** C4 as stated fails.  The narration of the second question "Q2" is
    sounding (source 1, the buffer with sample 1) and [isPlaying] is set.
    The user clicks the audio button of the first question "Q1": the
    sounding source is halted and the flag cleared, but no synthesis of
    "Q1" is awaited and no source sounds, so the requested turn is not
    played. *)
Lemma read_aloud_other_turn_only_stops :
  let s := Session.run [goSkill] browser secondQuestionSounding
             (Session.mount [goSkill] browser initial 0) in
  let s' := Session.step [goSkill] browser s (ClickReadAloud 0) in
  map text (messages (world s)) = ["Q1"; "I use goroutines"; "Q2"] /\
  map role (messages (world s)) = [ai; user; ai] /\
  isPlaying (world s) = true /\
  map (fun n => (Audio.samples (buffer n), playback n))
      (nodes (audio (world s)))
    = [([0 # 32768]%Q, Ended); ([1 # 32768]%Q, Playing)] /\
  pending s' = [] /\
  sounding (audio (world s')) = [] /\
  map playback (nodes (audio (world s'))) = [Ended; Halted] /\
  isPlaying (world s') = false.
Proof. repeat split. Qed.

End SessionFacts.


(* ================================================================== *)
(** * More on decoding *)
(* ================================================================== *)

Module DecodingFacts.
Import Platform Audio AudioFacts.

Lemma normalized_below_one (k : Z) :
  -32768 <= k <= 32767 -> (normalized k < 1)%Q.
Proof.
  intros Hk. unfold normalized, Qlt, Qdiv, Qmult, Qinv, inject_Z. simpl. lia.
Qed.

Lemma even_or_odd_length (data : Uint8Array) :
  exists n, length data = (2 * n)%nat \/ length data = (2 * n + 1)%nat.
Proof.
  destruct (Nat.Even_or_Odd (length data)) as [[n Hn]|[n Hn]];
    exists n; [left | right]; exact Hn.
Qed.

(** The payload is rejected exactly when it is empty (the platform
    allocates no buffer of zero frames) or its number of bytes is odd
    (there is no 16-bit view over it). *)
Theorem decodeAudioData_rejects_empty_or_odd (data : Uint8Array) :
  decodeAudioData data = None <->
  data = [] \/ Nat.odd (length data) = true.
Proof.
  destruct (even_or_odd_length data) as (n & [Hn|Hn]).
  - destruct (Int16Array_even n data Hn) as (l & Hl & Hlen & _).
    destruct n as [|n].
    + destruct data; [|discriminate Hn].
      split; [left; reflexivity | reflexivity].
    + assert (Hne : l <> []) by (intros ->; discriminate Hlen).
      rewrite (decodeAudioData_view data l Hl Hne), Hn.
      rewrite Nat.odd_mul, Nat.odd_2. cbn [andb].
      split; [discriminate|]. intros [->|H]; discriminate.
  - rewrite (decodeAudioData_odd data n Hn), Hn.
    rewrite Nat.odd_add, Nat.odd_mul, Nat.odd_2. cbn.
    split; [right; reflexivity | reflexivity].
Qed.

(** Whatever is decoded is one channel at 24 kHz with at least one
    sample, one sample per two bytes, and no sample reaches +1: the
    samples lie in [-1, 1). *)
Theorem decodeAudioData_mono (data : Uint8Array) (b : AudioBuffer) :
  decodeAudioData data = Some b ->
  sampleRate b = 24000 /\
  channelData b = [samples b] /\
  samples b <> [] /\
  (2 * length (samples b))%nat = length data /\
  Forall (fun x => (-1 <= x)%Q /\ (x < 1)%Q) (samples b).
Proof.
  intros Hb.
  destruct (even_or_odd_length data) as (n & [Hn|Hn]);
    [|rewrite (decodeAudioData_odd data n Hn) in Hb; discriminate Hb].
  destruct (Int16Array_even n data Hn) as (l & Hl & Hlen & Hget).
  assert (Hne : l <> []).
  { intros ->. destruct n; [|discriminate Hlen].
    destruct data; [|discriminate Hn]. discriminate Hb. }
  rewrite (decodeAudioData_view data l Hl Hne) in Hb. injection Hb as <-.
  unfold samples. cbn [sampleRate channelData nth].
  split; [reflexivity|]. split; [reflexivity|].
  split; [destruct l; [congruence | discriminate]|].
  split; [rewrite length_map; lia|].
  apply Forall_forall. intros x Hx.
  apply list_elem_of_fmap in Hx. destruct Hx as (k & -> & Hk).
  apply list_elem_of_lookup in Hk. destruct Hk as (i & Hi).
  assert (Hlt : (i < n)%nat) by (rewrite <- Hlen; eapply lookup_lt_Some; eauto).
  destruct (Hget i Hlt) as (lo & hi & _ & _ & H3).
  rewrite Hi in H3. injection H3 as ->.
  pose proof (int16_range lo hi) as Hr.
  split; [apply normalized_range, Hr | apply normalized_below_one, Hr].
Qed.

Lemma decodeAudioData_rejects_empty_or_odd_witness :
  decodeAudioData [] = None /\
  decodeAudioData ["001"; "002"; "003"]%byte = None /\
  decodeAudioData ["001"; "002"]%byte <> None.
Proof.
  split; [|split].
  - apply (decodeAudioData_rejects_empty_or_odd []). left. reflexivity.
  - apply (decodeAudioData_rejects_empty_or_odd ["001"; "002"; "003"]%byte).
    right. reflexivity.
  - intros H.
    apply (decodeAudioData_rejects_empty_or_odd ["001"; "002"]%byte) in H.
    destruct H as [H|H]; discriminate H.
Defined.

Lemma decodeAudioData_mono_witness :
  exists b,
    decodeAudioData ["255"; "127"; "000"; "128"]%byte = Some b /\
    sampleRate b = 24000 /\
    length (samples b) = 2%nat /\
    Forall (fun x => (-1 <= x)%Q /\ (x < 1)%Q) (samples b).
Proof.
  destruct (decodeAudioData ["255"; "127"; "000"; "128"]%byte) as [b|] eqn:E;
    [|discriminate E].
  destruct (decodeAudioData_mono _ b E) as (H1 & _ & _ & H3 & H4).
  exists b. repeat split; try assumption.
  simpl in H3. lia.
Defined.

End DecodingFacts.

(* ================================================================== *)
(** * More on the audio service *)
(* ================================================================== *)

Module ServiceFacts.
Import Platform Audio AudioService AudioServiceFacts History.

Section Generic.
Context {C : Type}.
Implicit Types (s : State C) (r : Run C) (n : SourceNode C).

Lemma stop_stop s : stop (stop s) = stop s.
Proof. apply stop_idle, stop_currentSource. Qed.

(** From a state in which only the current source can sound, [stop()]
    leaves nothing sounding and no current source, keeps the context and
    the number of nodes, and a second [stop()] changes nothing more. *)
Theorem stop_silences s :
  exclusive s ->
  sounding (stop s) = [] /\
  currentSource (stop s) = None /\
  audioContext (stop s) = audioContext s /\
  length (nodes (stop s)) = length (nodes s) /\
  stop (stop s) = stop s.
Proof.
  intros Hex. split; [apply silent_sounding, stop_silent, Hex|].
  split; [apply stop_currentSource|]. split; [apply stop_audioContext|].
  split; [|apply stop_stop].
  unfold stop. destruct (currentSource s); [|reflexivity].
  cbn [nodes]. apply length_alter.
Qed.

Lemma sounding_app (l : list (SourceNode C)) n :
  Forall (fun m => playback m <> Playing) l ->
  playback n = Playing ->
  List.filter isPlayingNode (l ++ [n]) = [n].
Proof.
  intros Hl Hn. induction Hl as [|m l Hm _ IH]; cbn [app List.filter].
  - unfold isPlayingNode. rewrite Hn. reflexivity.
  - unfold isPlayingNode at 1. destruct (playback m); try congruence; exact IH.
Qed.

(** An awaited [playAudio] with a payload that decodes, on a service
    that has or can construct its context and in which only the current
    source can sound: no callback is invoked, the previous source is
    halted as by [stop()], and the one source that sounds is the new
    one, with the decoded buffer and the new callback; it is the
    current source. *)
Theorem playAudio_supersedes env base64Audio (cb : option C) s
    (rawBytes : Uint8Array) (audioBuffer : AudioBuffer) :
  exclusive s ->
  audioContext s <> None \/ deviceAvailable env = true ->
  decodeBase64 base64Audio = Some rawBytes ->
  decodeAudioData rawBytes = Some audioBuffer ->
  let source := {| buffer := audioBuffer; onEnded := cb;
                   playback := Playing |} in
  snd (playAudio env base64Audio cb s) = [] /\
  nodes (fst (playAudio env base64Audio cb s)) = nodes (stop s) ++ [source] /\
  currentSource (fst (playAudio env base64Audio cb s))
    = Some (length (nodes s)) /\
  sounding (fst (playAudio env base64Audio cb s)) = [source] /\
  exclusive (fst (playAudio env base64Audio cb s)).
Proof.
  intros Hex Hctx Hraw Hbuf source.
  pose proof (playAudio_exclusive env base64Audio cb s Hex) as Hex'.
  pose proof (stop_silent s Hex) as Hsil.
  assert (Hlen : length (nodes (stop s)) = length (nodes s)).
  { unfold stop. destruct (currentSource s); [|reflexivity].
    cbn [nodes]. apply length_alter. }
  assert (Hg : exists s1 c, getContext env (stop s) = Some (s1, c) /\
                            nodes s1 = nodes (stop s)).
  { unfold getContext. rewrite stop_audioContext.
    destruct (audioContext s) as [c|] eqn:Hc.
    - exists (stop s), c. split; reflexivity.
    - destruct Hctx as [Hctx | ->]; [congruence|].
      eexists _, _. split; reflexivity. }
  destruct Hg as (s1 & c & Hg & Hn1).
  assert (Hplay : playAudio env base64Audio cb s =
    ({| audioContext := audioContext s1;
        currentSource := Some (length (nodes s1));
        nodes := nodes s1 ++ [source] |}, [])).
  { unfold playAudio, playAudio_begin. rewrite Hg, Hraw.
    unfold playAudio_resume. cbn [decoded callback]. rewrite Hbuf.
    reflexivity. }
  rewrite Hplay in *. cbn [fst snd nodes currentSource] in *.
  split; [reflexivity|]. split; [rewrite Hn1; reflexivity|].
  split; [rewrite Hn1, Hlen; reflexivity|]. split; [|exact Hex'].
  unfold sounding. cbn [nodes]. rewrite Hn1.
  apply sounding_app; [exact Hsil | reflexivity].
Qed.

(** When the buffer of the current source has been played and the
    platform dispatches [ended] to it: the callback given with it is
    invoked, nothing sounds, there is no current source, and a second
    [ended] for the same source invokes nothing. *)
Theorem ended_frees_the_channel env i s n :
  exclusive s ->
  nodes s !! i = Some n ->
  playback n = Playing ->
  snd (dispatchEnded env i s) = invoke (onEnded n) /\
  currentSource (fst (dispatchEnded env i s)) = None /\
  sounding (fst (dispatchEnded env i s)) = [] /\
  snd (dispatchEnded env i (fst (dispatchEnded env i s))) = [].
Proof.
  intros Hex Hi Hp.
  split; [|split; [|split; [|apply dispatchEnded_once]]].
  - unfold dispatchEnded, canEnd. rewrite Hi, Hp. reflexivity.
  - unfold dispatchEnded, canEnd. rewrite Hi, Hp. reflexivity.
  - apply silent_sounding.
    unfold dispatchEnded, canEnd, silent. rewrite Hi, Hp. cbn [fst nodes].
    apply Forall_lookup. intros j m Hj Hm.
    destruct (decide (i = j)) as [->|Hne].
    + rewrite list_lookup_insert_eq in Hj by (eapply lookup_lt_Some; eauto).
      injection Hj as <-. discriminate Hm.
    + rewrite list_lookup_insert_ne in Hj by exact Hne.
      pose proof (Hex i n Hi Hp). pose proof (Hex j m Hj Hm). congruence.
Qed.

(** ** Every callback is accounted for *)

Lemma alive_node_stop n : alive (node_stop n) = alive n.
Proof.
  unfold node_stop, alive.
  destruct (playback n) eqn:E; cbn; rewrite ?E; reflexivity.
Qed.

Lemma onEnded_node_stop n : onEnded (node_stop n) = onEnded n.
Proof. unfold node_stop. destruct (playback n); reflexivity. Qed.

#[local] Abbreviation handlers :=
  (fun l : list (SourceNode C) =>
     flat_map (fun n => invoke (onEnded n)) (List.filter alive l)).

Lemma handlers_alter (l : list (SourceNode C)) (i : nat) :
  handlers (alter node_stop i l) = handlers l.
Proof.
  revert i. induction l as [|x l IH]; intros [|i];
    cbn [alter list_alter List.filter]; try reflexivity.
  - rewrite alive_node_stop. destruct (alive x); [|reflexivity].
    cbn [flat_map]. rewrite onEnded_node_stop. reflexivity.
  - fold (alter node_stop i l).
    destruct (alive x); cbn [flat_map]; rewrite IH; reflexivity.
Qed.

Lemma handlers_stop s : handlers (nodes (stop s)) = handlers (nodes s).
Proof.
  unfold stop. destruct (currentSource s); [|reflexivity]. cbn [nodes].
  apply handlers_alter.
Qed.

Lemma handlers_ended (l : list (SourceNode C)) (i : nat) n :
  l !! i = Some n -> alive n = true ->
  handlers l
  ≡ₚ invoke (onEnded n) ++ handlers (<[i := set_playback Ended n]> l).
Proof.
  revert i. induction l as [|x l IH]; intros [|i] Hi Ha;
    try discriminate Hi.
  - injection Hi as ->. cbn [insert list_insert List.filter].
    rewrite Ha. cbn [alive set_playback playback flat_map]. reflexivity.
  - cbn [insert list_insert List.filter]. fold (<[i:=set_playback Ended n]> l).
    specialize (IH i Hi Ha). destruct (alive x); cbn [flat_map].
    + rewrite IH. apply Permutation_app_swap_app.
    + exact IH.
Qed.

Lemma step_accounted env r (c : Call C) :
  fired (step env r c) ++ awaited (step env r c)
  ≡ₚ (fired r ++ awaited r) ++ given [c].
Proof.
  unfold awaited, given. cbn [flat_map]. rewrite app_nil_r.
  destruct c as [b cb| | |i]; cbn [step].
  - (* Play *)
    pose proof (playAudio_begin_nodes env b cb (service r)) as Hb.
    unfold playAudio_begin in *.
    destruct (getContext env (stop (service r))) as [[s1 c]|] eqn:Hg.
    + destruct (decodeBase64 b) as [raw|]; destruct Hb as (Hb & _);
        cbn [service suspended fired from_option];
        rewrite Hb, handlers_stop.
      * rewrite flat_map_app. cbn [flat_map callback].
        rewrite !app_nil_r, <- !app_assoc.
        do 2 apply Permutation_app_head. apply Permutation_app_comm.
      * rewrite !app_nil_r, <- !app_assoc. apply Permutation_app_head.
        etransitivity; [apply Permutation_app_comm|].
        rewrite <- !app_assoc. reflexivity.
    + destruct Hb as (Hb & _). cbn [service suspended fired from_option].
      rewrite handlers_stop.
      rewrite !app_nil_r, <- !app_assoc. apply Permutation_app_head.
      etransitivity; [apply Permutation_app_comm|].
      rewrite <- !app_assoc. reflexivity.
  - (* Stop *)
    cbn [service suspended fired]. rewrite handlers_stop, app_nil_r.
    reflexivity.
  - (* Resume *)
    rewrite app_nil_r.
    destruct (suspended r) as [|k rest] eqn:Hs; [rewrite Hs; reflexivity|].
    unfold playAudio_resume. destruct (decoded k) as [audioBuffer|].
    + cbn [service suspended fired nodes flat_map].
      rewrite List.filter_app, flat_map_app.
      cbn [List.filter alive playback flat_map onEnded].
      rewrite !app_nil_r, <- !app_assoc. apply Permutation_app_head.
      rewrite (Permutation_app_comm (invoke (callback k))), <- !app_assoc.
      reflexivity.
    + cbn [service suspended fired flat_map].
      rewrite <- !app_assoc. reflexivity.
  - (* SourceEnded *)
    rewrite app_nil_r. unfold dispatchEnded.
    destruct (nodes (service r) !! i) as [n|] eqn:Hi;
      [|cbn [service suspended fired]; rewrite app_nil_r; reflexivity].
    destruct (canEnd env n) eqn:Hce;
      [|cbn [service suspended fired]; rewrite app_nil_r; reflexivity].
    cbn [service suspended fired nodes].
    assert (Ha : alive n = true)
      by (unfold canEnd in Hce; unfold alive; destruct (playback n);
          congruence).
    rewrite (handlers_ended _ _ _ Hi Ha), <- !app_assoc.
    apply Permutation_app_head. apply Permutation_app_swap_app.
Qed.

Lemma given_app (cs cs' : list (Call C)) :
  given (cs ++ cs') = given cs ++ given cs'.
Proof. apply flat_map_app. Qed.

Lemma run_accounted env (cs : list (Call C)) :
  forall r,
    fired (run env cs r) ++ awaited (run env cs r)
    ≡ₚ (fired r ++ awaited r) ++ given cs.
Proof.
  unfold run.
  induction cs as [|c cs IH]; intros r; cbn [fold_left].
  - cbn. rewrite app_nil_r. reflexivity.
  - rewrite IH, step_accounted.
    change (c :: cs) with ([c] ++ cs). rewrite given_app, <- !app_assoc.
    reflexivity.
Qed.

(** However [playAudio] calls, [stop] calls, resumptions and [ended]
    events are interleaved from the idle service: the callbacks invoked
    so far, together with those of the calls still suspended at their
    [await] and of the sources that have not received [ended], are the
    callbacks given with the [playAudio] calls, each as often as it was
    given.  So every callback given is invoked or can still be; and
    when the callbacks given are pairwise distinct, none is invoked
    twice and none that was invoked can be invoked again. *)
Theorem callbacks_accounted env (cs : list (Call C)) :
  fired (run env cs start) ++ awaited (run env cs start) ≡ₚ given cs /\
  (forall c, In c (given cs) ->
     In c (fired (run env cs start)) \/ In c (awaited (run env cs start))) /\
  (List.NoDup (given cs) ->
   List.NoDup (fired (run env cs start)) /\
   List.NoDup (awaited (run env cs start)) /\
   forall c, In c (fired (run env cs start)) ->
             ~ In c (awaited (run env cs start))).
Proof.
  assert (H : fired (run env cs start) ++ awaited (run env cs start)
              ≡ₚ given cs) by (rewrite run_accounted; reflexivity).
  split; [exact H|]. split.
  - intros c Hc. apply List.in_app_or.
    apply (Permutation_in c (Permutation_sym H) Hc).
  - intros Hnd.
    assert (Hnd' : List.NoDup (fired (run env cs start) ++
                               awaited (run env cs start)))
      by (apply (Permutation_NoDup (Permutation_sym H)), Hnd).
    split; [exact (NoDup_app_remove_r _ _ Hnd')|].
    split; [exact (NoDup_app_remove_l _ _ Hnd')|].
    intros c Hc Ha. apply List.in_split in Hc as (l1 & l2 & Hc).
    rewrite Hc, <- app_assoc in Hnd'. cbn [app] in Hnd'.
    apply List.NoDup_remove_2 in Hnd'. apply Hnd'.
    apply List.in_or_app. right. apply List.in_or_app. right. exact Ha.
Qed.

(** ** The service only moves forward *)

Lemma later_refl s : later s s.
Proof.
  split; [auto|]. intros i n Hi. exists n. repeat split; auto.
Qed.

Lemma later_trans s1 s2 s3 : later s1 s2 -> later s2 s3 -> later s1 s3.
Proof.
  intros [Hc1 Hn1] [Hc2 Hn2]. split; [auto|].
  intros i n Hi. destruct (Hn1 i n Hi) as (n' & Hi' & Hb & Ho & Ha).
  destruct (Hn2 i n' Hi') as (n'' & Hi'' & Hb' & Ho' & Ha').
  exists n''. repeat split; try congruence. lia.
Qed.

Lemma later_stop s : later s (stop s).
Proof.
  split; [intros c; rewrite stop_audioContext; auto|].
  intros i n Hi. unfold stop.
  destruct (currentSource s) as [j|]; [|exists n; repeat split; auto].
  cbn [nodes]. rewrite list_lookup_alter.
  destruct (decide (j = i)) as [->|]; [|exists n; repeat split; auto].
  rewrite Hi. exists (node_stop n). split; [reflexivity|].
  unfold node_stop. destruct (playback n) eqn:E; cbn; rewrite ?E;
    repeat split; auto.
Qed.

Lemma later_getContext env s s' c :
  getContext env s = Some (s', c) -> later s s'.
Proof.
  unfold getContext. destruct (audioContext s) as [c0|] eqn:Hc.
  - intros [= <- <-]. apply later_refl.
  - destruct (deviceAvailable env); [|discriminate].
    intros [= <- <-]. split; [rewrite Hc; discriminate|].
    intros i n Hi. exists n. repeat split; auto.
Qed.

Lemma later_begin env base64Audio cb s :
  later s (fst (fst (playAudio_begin env base64Audio cb s))).
Proof.
  unfold playAudio_begin.
  destruct (getContext env (stop s)) as [[s1 c]|] eqn:Hg.
  - apply later_getContext in Hg.
    destruct (decodeBase64 base64Audio); cbn [fst];
      (eapply later_trans; [apply later_stop | exact Hg]).
  - apply later_stop.
Qed.

Lemma later_resume (k : Suspension C) s :
  later s (fst (playAudio_resume k s)).
Proof.
  unfold playAudio_resume. destruct (decoded k); [|apply later_refl].
  cbn [fst]. split; [auto|]. intros i n Hi. exists n. cbn [nodes].
  split; [apply lookup_app_l_Some, Hi | repeat split; auto].
Qed.

Lemma later_ended env i s : later s (fst (dispatchEnded env i s)).
Proof.
  unfold dispatchEnded. destruct (nodes s !! i) as [n|] eqn:Hi;
    [|apply later_refl].
  destruct (canEnd env n); [|apply later_refl].
  cbn [fst]. split; [auto|]. intros j m Hj. cbn [nodes].
  destruct (decide (i = j)) as [->|Hne].
  - rewrite list_lookup_insert_eq by (eapply lookup_lt_Some; eauto).
    assert (m = n) by congruence. subst m.
    exists (set_playback Ended n). cbn. repeat split; auto.
    destruct (playback n); cbn; lia.
  - rewrite list_lookup_insert_ne by exact Hne.
    exists m. repeat split; auto.
Qed.

Lemma later_step env r (c : Call C) :
  later (service r) (service (step env r c)).
Proof.
  destruct c as [b cb| | |i]; cbn [step].
  - pose proof (later_begin env b cb (service r)) as H.
    destruct (playAudio_begin env b cb (service r)) as [[s f] k]. exact H.
  - apply later_stop.
  - destruct (suspended r) as [|k rest]; [apply later_refl|].
    pose proof (later_resume k (service r)) as H.
    destruct (playAudio_resume k (service r)) as [s f]. exact H.
  - pose proof (later_ended env i (service r)) as H.
    destruct (dispatchEnded env i (service r)) as [s f]. exact H.
Qed.

(** Whatever is called in whatever order: the audio context, once
    constructed, is never replaced; no source node is ever dropped or
    given another buffer or callback; and a source only goes from
    sounding to halted to ended, so one that was halted or has ended
    never sounds again. *)
Theorem service_moves_forward env (cs : list (Call C)) r :
  later (service r) (service (run env cs r)) /\
  forall i n n',
    nodes (service r) !! i = Some n ->
    nodes (service (run env cs r)) !! i = Some n' ->
    playback n <> Playing -> playback n' <> Playing.
Proof.
  assert (H : later (service r) (service (run env cs r))).
  { unfold run. revert r. induction cs as [|c cs IH]; intros r;
      [apply later_refl|].
    cbn [fold_left]. eapply later_trans; [apply later_step | apply IH]. }
  split; [exact H|]. intros i n n' Hi Hi' Hp.
  destruct H as [_ H]. destruct (H i n Hi) as (m & Hm & _ & _ & Ha).
  assert (m = n') by congruence. subst m.
  destruct (playback n), (playback n'); cbn in Ha; try congruence; lia.
Qed.

End Generic.

Lemma stop_silences_witness :
  let s := fst (playAudio quiet blip (Some 1%nat) initial) in
  sounding s <> [] /\ sounding (stop s) = [] /\ stop (stop s) = stop s.
Proof.
  split; [discriminate|].
  destruct (stop_silences (fst (playAudio quiet blip (Some 1%nat) initial)))
    as (H1 & _ & _ & _ & H5).
  - intros [|i] n Hi Hp; [reflexivity|]. destruct i; discriminate Hi.
  - split; assumption.
Defined.

Lemma playAudio_supersedes_witness :
  let s := fst (playAudio quiet blip (Some 1%nat) initial) in
  map playback (nodes (fst (playAudio quiet "AQA=" (Some 2%nat) s)))
    = [Halted; Playing] /\
  currentSource (fst (playAudio quiet "AQA=" (Some 2%nat) s)) = Some 1%nat /\
  map onEnded (sounding (fst (playAudio quiet "AQA=" (Some 2%nat) s)))
    = [Some 2%nat].
Proof.
  destruct (playAudio_supersedes quiet "AQA=" (Some 2%nat)
              (fst (playAudio quiet blip (Some 1%nat) initial))
              ["001"; "000"]%byte
              {| sampleRate := 24000; channelData := [[1 # 32768]%Q] |})
    as (_ & H2 & H3 & H4 & _).
  - intros [|i] n Hi Hp; [reflexivity|]. destruct i; discriminate Hi.
  - left. discriminate.
  - reflexivity.
  - reflexivity.
  - split; [rewrite H2; reflexivity|]. split; [exact H3|].
    rewrite H4. reflexivity.
Defined.

Lemma callbacks_accounted_witness :
  let r := run browser
             [Play blip (Some 1%nat); Resume;
              Play "AAAA" (Some 2%nat); SourceEnded 0; Resume;
              Play blip (Some 3%nat); Stop; Resume;
              Play blip (Some 4%nat)]
             start in
  fired r = [1%nat; 2%nat] /\
  awaited r = [4%nat; 3%nat] /\
  List.NoDup (fired r) /\
  ~ In 1%nat (awaited r).
Proof.
  destruct (callbacks_accounted browser
              [Play blip (Some 1%nat); Resume;
               Play "AAAA" (Some 2%nat); SourceEnded 0; Resume;
               Play blip (Some 3%nat); Stop; Resume;
               Play blip (Some 4%nat)]) as (_ & _ & H).
  destruct H as (H1 & _ & H3).
  - repeat constructor; cbn; intuition discriminate.
  - split; [reflexivity|]. split; [reflexivity|]. split; [exact H1|].
    apply H3. left. reflexivity.
Defined.

Lemma ended_frees_the_channel_witness :
  let s := fst (playAudio quiet blip (Some 1%nat) initial) in
  snd (dispatchEnded quiet 0 s) = [1%nat] /\
  currentSource (fst (dispatchEnded quiet 0 s)) = None /\
  sounding (fst (dispatchEnded quiet 0 s)) = [].
Proof.
  destruct (ended_frees_the_channel quiet 0
              (fst (playAudio quiet blip (Some 1%nat) initial))
              {| buffer := {| sampleRate := 24000;
                              channelData := [[0 # 32768]%Q] |};
                 onEnded := Some 1%nat; playback := Playing |})
    as (H1 & H2 & H3 & _).
  - intros [|i] n Hi Hp; [reflexivity|]. destruct i; discriminate Hi.
  - reflexivity.
  - reflexivity.
  - split; [exact H1|]. split; assumption.
Defined.

End ServiceFacts.

(* ================================================================== *)
(** * The steps of the application and the selection of skills *)
(* ================================================================== *)

Module AppFacts.
Import Js Session App.

Lemma toggled_toggled (s : Skill) : toggled (toggled s) = s.
Proof. destruct s as [i n c b]. unfold toggled. cbn. rewrite negb_involutive. reflexivity. Qed.

(** Toggling a skill keeps every skill's id, name and category and the
    order of the list, and toggling the same id again gives the list
    back; an id that no skill carries changes nothing. *)
Theorem handleToggleSkill_involutive (id0 : string) (st : State) :
  handleToggleSkill id0 (handleToggleSkill id0 st) = st /\
  map skillId (skills (handleToggleSkill id0 st)) = map skillId (skills st) /\
  map name (skills (handleToggleSkill id0 st)) = map name (skills st) /\
  map category (skills (handleToggleSkill id0 st))
    = map category (skills st) /\
  (~ In id0 (map skillId (skills st)) -> handleToggleSkill id0 st = st).
Proof.
  destruct st as [p l]. unfold handleToggleSkill. cbn [step skills].
  repeat split.
  - f_equal. rewrite List.map_map. rewrite <- (List.map_id l) at 2.
    apply List.map_ext. intros s.
    destruct (String.eqb (skillId s) id0) eqn:E; cbn [toggled skillId].
    + rewrite E. apply toggled_toggled.
    + rewrite E. reflexivity.
  - rewrite List.map_map. apply List.map_ext. intros s.
    destruct (String.eqb (skillId s) id0); reflexivity.
  - rewrite List.map_map. apply List.map_ext. intros s.
    destruct (String.eqb (skillId s) id0); reflexivity.
  - rewrite List.map_map. apply List.map_ext. intros s.
    destruct (String.eqb (skillId s) id0); reflexivity.
  - intros Hnot. f_equal. rewrite <- (List.map_id l) at 2.
    apply List.map_ext_in. intros s Hs.
    destruct (String.eqb_spec (skillId s) id0) as [E|E]; [|reflexivity].
    exfalso. apply Hnot. rewrite <- E. apply List.in_map. exact Hs.
Qed.

Lemma toggle_other id0 (l : list Skill) :
  ~ In id0 (map skillId l) ->
  map (fun s => if String.eqb (skillId s) id0 then toggled s else s) l = l.
Proof.
  intros Hnot. rewrite <- (List.map_id l) at 2.
  apply List.map_ext_in. intros s Hs.
  destruct (String.eqb_spec (skillId s) id0) as [E|E]; [|reflexivity].
  exfalso. apply Hnot. rewrite <- E. apply List.in_map. exact Hs.
Qed.

(** When the ids are pairwise distinct, a click on the skill at
    position [i] negates the selection of that skill and of no other,
    so the count shown as "selected" moves by exactly one. *)
Theorem handleToggleSkill_flips_one (st : State) (i : nat) (s : Skill) :
  List.NoDup (map skillId (skills st)) ->
  skills st !! i = Some s ->
  skills (handleToggleSkill (skillId s) st) = <[i := toggled s]> (skills st) /\
  (selectedCount (skills (handleToggleSkill (skillId s) st))
     + (if selected s then 1 else 0)
   = selectedCount (skills st) + (if selected s then 0 else 1))%nat.
Proof.
  destruct st as [p l]. cbn [skills handleToggleSkill].
  revert i. induction l as [|x l IH]; intros i Hnd Hi; [discriminate Hi|].
  cbn [map] in Hnd. apply List.NoDup_cons_iff in Hnd as [Hx Hnd].
  destruct i as [|i].
  - injection Hi as ->. cbn [map]. rewrite String.eqb_refl.
    rewrite (toggle_other _ _ Hx). split; [reflexivity|].
    unfold selectedCount. cbn [List.filter toggled selected].
    destruct (selected s); cbn [negb length]; lia.
  - cbn [lookup list_lookup] in Hi. fold (l !! i) in Hi.
    destruct (IH i Hnd Hi) as [IH1 IH2].
    cbn [map]. destruct (String.eqb_spec (skillId x) (skillId s)) as [E|E].
    + exfalso. apply Hx. rewrite E. apply List.in_map.
      apply list_elem_of_In. eapply list_elem_of_lookup_2. exact Hi.
    + cbn [insert list_insert]. fold (<[i:=toggled s]> l).
      rewrite IH1. split; [reflexivity|].
      unfold selectedCount in *. cbn [List.filter].
      rewrite <- IH1. destruct (selected x); cbn [length]; lia.
Qed.

Lemma handle_sound st e : sound st -> sound (handle st e).
Proof.
  intros H. pose proof H as (Hs & Hu & Hi).
  destruct e as [l|id0| | |]; cbn [handle].
  - repeat split; cbn; congruence.
  - destruct (step st) eqn:E; cbn [isStep]; try exact H.
    repeat split; cbn [handleToggleSkill step skills]; rewrite ?E; congruence.
  - destruct (step st) eqn:E; cbn [isStep andb]; try exact H.
    destruct (confirmDisabled (skills st)) eqn:Hc; cbn [negb]; [exact H|].
    repeat split; cbn [startInterview step skills]; try congruence.
    intros _. unfold confirmDisabled in Hc.
    apply Nat.eqb_neq in Hc. exact Hc.
  - destruct (step st) eqn:E; cbn [isStep]; try exact H;
      repeat split; cbn; congruence.
  - destruct (step st) eqn:E; cbn [isStep]; try exact H;
      repeat split; cbn; congruence.
Qed.

Lemma run_sound es : forall st, sound st -> sound (run es st).
Proof.
  unfold run. induction es as [|e es IH]; intros st H; [exact H|].
  cbn [fold_left]. apply IH, handle_sound, H.
Qed.

Lemma initial_sound : sound initial.
Proof. repeat split; cbn; congruence. Qed.

(** Whatever is uploaded and clicked from the first render on, an
    interview session is only ever rendered with at least one topic:
    the list given to [InterviewSession] is not empty and every skill in
    it is selected. *)
Theorem interview_has_a_topic (es : list Event) :
  step (run es initial) = INTERVIEW ->
  selectedSkills (run es initial) <> [] /\
  Forall (fun s => selected s = true) (selectedSkills (run es initial)).
Proof.
  intros Hi. destruct (run_sound es initial initial_sound) as (_ & _ & H).
  specialize (H Hi). unfold selectedSkills, selectedCount in *. split.
  - intros E. rewrite E in H. apply H. reflexivity.
  - apply Forall_forall. intros s Hs. apply list_elem_of_In in Hs.
    apply List.filter_In in Hs. tauto.
Qed.

(** The step [SUMMARY] of the enumeration is never reached, and
    whenever the upload screen is shown (at first, after "Start Over",
    after "End Session") the skills of the earlier resume are gone. *)
Theorem upload_screen_forgets (es : list Event) :
  isStep (step (run es initial)) SUMMARY = false /\
  (step (run es initial) = UPLOAD -> skills (run es initial) = []).
Proof.
  destruct (run_sound es initial initial_sound) as (Hs & Hu & _).
  split; [|exact Hu].
  destruct (step (run es initial)); try reflexivity. congruence.
Qed.

Lemma handleToggleSkill_flips_one_witness :
  let st := {| step := SELECT_SKILLS;
               skills := [goSkill; talkSkill; sqlSkill] |} in
  skills (handleToggleSkill "s2" st)
  = [goSkill; toggled talkSkill; sqlSkill] /\
  selectedCount (skills st) = 2%nat /\
  selectedCount (skills (handleToggleSkill "s2" st)) = 3%nat.
Proof.
  destruct (handleToggleSkill_flips_one
              {| step := SELECT_SKILLS;
                 skills := [goSkill; talkSkill; sqlSkill] |} 1 talkSkill)
    as [H1 _].
  - cbn. repeat constructor; cbn; intuition discriminate.
  - reflexivity.
  - split; [exact H1|]. split; reflexivity.
Defined.

Lemma interview_has_a_topic_witness :
  selectedSkills (run [SkillsExtracted [goSkill]; Confirm] initial) <> [].
Proof.
  destruct (interview_has_a_topic [SkillsExtracted [goSkill]; Confirm])
    as [H _]; [reflexivity | exact H].
Defined.

Lemma upload_screen_forgets_witness :
  skills (run [SkillsExtracted [goSkill]; Confirm; EndSession] initial) = [].
Proof.
  destruct (upload_screen_forgets
              [SkillsExtracted [goSkill]; Confirm; EndSession]) as [_ H].
  apply H. reflexivity.
Defined.

End AppFacts.

(* ================================================================== *)
(** * The upload of a resume *)
(* ================================================================== *)

Module FileUploadFacts.
Import Js Session FileUpload.

#[local] Abbreviation comma := ","%char.

Lemma isValidType_iff (type0 : string) :
  isValidType type0 = true <->
  type0 = "application/pdf" \/ type0 = "text/plain".
Proof.
  unfold isValidType, validTypes. cbn [existsb]. rewrite orb_false_r.
  rewrite orb_true_iff, !String.eqb_eq. reflexivity.
Qed.

Lemma splitFrom_rest (sep : ascii) (l : list ascii) :
  forall current,
    Forall (fun c => c <> sep) l ->
    splitFrom sep current l = [string_of_list_ascii (rev current ++ l)].
Proof.
  induction l as [|c l IH]; intros current H; cbn [splitFrom].
  - rewrite app_nil_r. reflexivity.
  - inversion H as [|? ? Hc Hl]; subst.
    destruct (Ascii.eqb_spec c sep) as [E|_]; [contradiction|].
    rewrite (IH _ Hl). cbn [rev]. rewrite <- app_assoc. reflexivity.
Qed.

Lemma splitFrom_first (sep : ascii) (l1 l2 : list ascii) :
  forall current,
    Forall (fun c => c <> sep) l1 ->
    splitFrom sep current (l1 ++ sep :: l2)
    = string_of_list_ascii (rev current ++ l1) :: splitFrom sep [] l2.
Proof.
  induction l1 as [|c l1 IH]; intros current H; cbn [splitFrom app].
  - rewrite Ascii.eqb_refl, app_nil_r. reflexivity.
  - inversion H as [|? ? Hc Hl]; subst.
    destruct (Ascii.eqb_spec c sep) as [E|_]; [contradiction|].
    rewrite (IH _ Hl). cbn [rev]. rewrite <- app_assoc. reflexivity.
Qed.

Lemma list_ascii_of_string_app (a b : string) :
  list_ascii_of_string (a ++ b)
  = list_ascii_of_string a ++ list_ascii_of_string b.
Proof.
  induction a as [|c a IH]; [reflexivity|].
  change (c :: list_ascii_of_string (a ++ b)
          = c :: (list_ascii_of_string a ++ list_ascii_of_string b)).
  f_equal. exact IH.
Qed.

(** [reader.onload] gives the parser what follows the first comma of
    the data URL: for "<header>,<payload>" with a payload that holds no
    comma (a base64 payload never does) the payload itself; and for a
    result with no comma at all the value [undefined]. *)
Theorem onload_takes_payload (header payload result type0 : string) :
  (Forall (fun c => c <> comma) (list_ascii_of_string header) ->
   Forall (fun c => c <> comma) (list_ascii_of_string payload) ->
   onloadBegin (header ++ "," ++ payload) type0 = (Some payload, type0)) /\
  (Forall (fun c => c <> comma) (list_ascii_of_string result) ->
   onloadBegin result type0 = (None, type0)).
Proof.
  unfold onloadBegin, split. split.
  - intros Hh Hp. rewrite list_ascii_of_string_app.
    change (list_ascii_of_string ("," ++ payload))
      with (comma :: list_ascii_of_string payload).
    rewrite (splitFrom_first _ _ _ [] Hh), (splitFrom_rest _ _ [] Hp).
    cbn [rev app lookup list_lookup].
    rewrite string_of_list_ascii_of_string. reflexivity.
  - intros Hr. rewrite (splitFrom_rest _ _ [] Hr). reflexivity.
Qed.

(** Skills reach [onSkillsExtracted] in one case only: the file is a
    PDF or a text file, the reader loads it, and the parser resolves;
    what is delivered is what the parser resolved to. *)
Theorem upload_delivers_iff (fileType : option string) (reading : Reading)
    (parser : option string -> string -> Settled (list Skill))
    (st : State) (skills0 : list Skill) :
  delivered (upload fileType reading parser st) = Some skills0 <->
  exists type0 result,
    fileType = Some type0 /\
    (type0 = "application/pdf" \/ type0 = "text/plain") /\
    reading = ReadLoads result /\
    parser (fst (onloadBegin result type0)) type0 = Fulfilled skills0.
Proof.
  unfold upload, handleFile. split.
  - destruct fileType as [type0|]; [|discriminate].
    destruct (isValidType type0) eqn:Hv; cbn [negb]; [|discriminate].
    destruct reading as [|result|]; cbn -[onloadBegin]; try discriminate.
    destruct (parser _ _) as [sk|e] eqn:Hp; cbn; [|discriminate].
    intros [= <-]. exists type0, result.
    repeat split; [apply isValidType_iff, Hv | exact Hp].
  - intros (type0 & result & -> & Hv & -> & Hp).
    apply isValidType_iff in Hv. rewrite Hv. cbn -[onloadBegin].
    change (snd (onloadBegin result type0)) with type0.
    rewrite Hp. reflexivity.
Qed.

(** An upload of a PDF or text file that the reader loads: while the
    parser works the component is loading and shows no error; when the
    parser has settled it is not loading; it shows no error and has
    delivered the skills if the parser resolved, and shows the analysis
    error and has delivered nothing if the parser rejected. *)
Theorem upload_settles (type0 result : string)
    (parser : option string -> string -> Settled (list Skill))
    (st : State) :
  isValidType type0 = true ->
  let u := upload (Some type0) (ReadLoads result) parser st in
  loading (during u) = true /\ error (during u) = None /\
  parserCall u = Some (onloadBegin result type0) /\
  loading (final u) = false /\
  isDragOver (final u) = isDragOver st /\
  match parser (fst (onloadBegin result type0)) type0 with
  | Fulfilled skills0 =>
      delivered u = Some skills0 /\ error (final u) = None
  | Rejected _ =>
      delivered u = None /\
      error (final u)
      = Some "Failed to analyze resume. Please try a different file."
  end.
Proof.
  intros Hv. unfold upload, handleFile. rewrite Hv. cbn -[onloadBegin].
  change (snd (onloadBegin result type0)) with type0.
  destruct (parser _ _); cbn; repeat split.
Qed.

(** An upload of a PDF or text file for which the reader fires [error]
    instead of [load]: no handler is registered for it, so the component
    stays loading, with no error shown and nothing delivered. *)
Theorem upload_reader_error_stays_loading (type0 : string)
    (parser : option string -> string -> Settled (list Skill))
    (st : State) :
  isValidType type0 = true ->
  let u := upload (Some type0) ReadErrors parser st in
  loading (final u) = true /\ error (final u) = None /\
  parserCall u = None /\ delivered u = None.
Proof.
  intros Hv. unfold upload, handleFile. rewrite Hv. cbn. repeat split.
Qed.

(** A file of any other type is refused before anything is read: the
    type error is shown, the parser is not called, nothing is delivered,
    and [loading] is as it was.  If [readAsDataURL] throws for an
    accepted file, the read error is shown and loading is cleared. *)
Theorem upload_refused (type0 : string) (reading : Reading)
    (parser : option string -> string -> Settled (list Skill))
    (st : State) :
  (type0 <> "application/pdf" -> type0 <> "text/plain" ->
   let u := upload (Some type0) reading parser st in
   error (final u) = Some "Please upload a PDF or TXT file." /\
   loading (final u) = loading st /\
   parserCall u = None /\ delivered u = None) /\
  (isValidType type0 = true ->
   let u := upload (Some type0) ReadThrows parser st in
   error (final u) = Some "Error reading file." /\
   loading (final u) = false /\
   parserCall u = None /\ delivered u = None).
Proof.
  split.
  - intros H1 H2. assert (Hv : isValidType type0 = false).
    { destruct (isValidType type0) eqn:E; [|reflexivity].
      apply isValidType_iff in E. tauto. }
    unfold upload, handleFile. rewrite Hv. cbn.
    destruct reading; cbn; repeat split.
  - intros Hv. unfold upload, handleFile. rewrite Hv. cbn. repeat split.
Qed.

Lemma onload_takes_payload_witness :
  onloadBegin "data:text/plain;base64,SGk=" "text/plain"
    = (Some "SGk=", "text/plain") /\
  onloadBegin "data:" "text/plain" = (None, "text/plain").
Proof.
  destruct (onload_takes_payload "data:text/plain;base64" "SGk=" "data:"
              "text/plain") as [H1 H2].
  split.
  - apply H1; repeat constructor; discriminate.
  - apply H2; repeat constructor; discriminate.
Defined.

Lemma upload_delivers_iff_witness :
  delivered
    (upload (Some "text/plain") (ReadLoads "data:text/plain;base64,SGk=")
       (fun _ _ => Fulfilled [goSkill])
       {| isDragOver := false; loading := false; error := None |})
  = Some [goSkill].
Proof.
  apply (upload_delivers_iff (Some "text/plain")
           (ReadLoads "data:text/plain;base64,SGk=")
           (fun _ _ => Fulfilled [goSkill])
           {| isDragOver := false; loading := false; error := None |}
           [goSkill]).
  exists "text/plain", "data:text/plain;base64,SGk=".
  split; [reflexivity|]. split; [right; reflexivity|].
  split; reflexivity.
Defined.

Lemma upload_settles_witness :
  loading
    (final
       (upload (Some "application/pdf") (ReadLoads "data:,QQ==")
          (fun _ _ => Rejected TypeError)
          {| isDragOver := false; loading := false; error := None |}))
  = false.
Proof.
  destruct (upload_settles "application/pdf" "data:,QQ=="
              (fun _ _ => Rejected TypeError)
              {| isDragOver := false; loading := false; error := None |})
    as (_ & _ & _ & H & _); [reflexivity | exact H].
Defined.

Lemma upload_reader_error_stays_loading_witness :
  loading
    (final
       (upload (Some "application/pdf") ReadErrors
          (fun _ _ => Rejected TypeError)
          {| isDragOver := false; loading := false; error := None |}))
  = true.
Proof.
  destruct (upload_reader_error_stays_loading "application/pdf"
              (fun _ _ => Rejected TypeError)
              {| isDragOver := false; loading := false; error := None |})
    as (H & _); [reflexivity | exact H].
Defined.

Lemma upload_refused_witness :
  error
    (final
       (upload (Some "image/png") (ReadLoads "data:,QQ==")
          (fun _ _ => Fulfilled [goSkill])
          {| isDragOver := false; loading := false; error := None |}))
  = Some "Please upload a PDF or TXT file.".
Proof.
  destruct (upload_refused "image/png" (ReadLoads "data:,QQ==")
              (fun _ _ => Fulfilled [goSkill])
              {| isDragOver := false; loading := false; error := None |})
    as [H _].
  destruct H as (H & _); [discriminate | discriminate | exact H].
Defined.

End FileUploadFacts.

(* ================================================================== *)
(** * The collaborators behind the backend *)
(* ================================================================== *)

Module BackendFacts.
Import Js Platform Session Backend.

Section Services.
Context (fetch : Request -> Settled Response).

(** Whatever [fetch] does, the promises of [generateInterviewQuestion],
    [validateAnswer] and [generateSpeech] are fulfilled: none of the
    three ever rejects. *)
Theorem backend_never_rejects :
  (forall selectedSkills previousQuestions,
     exists v,
       generateInterviewQuestion fetch selectedSkills previousQuestions
       = Fulfilled v) /\
  (forall question answer,
     exists v, validateAnswer fetch question answer = Fulfilled v) /\
  (forall spoken, exists v, generateSpeech fetch spoken = Fulfilled v).
Proof.
  split; [|split].
  - intros sk prev. unfold generateInterviewQuestion.
    destruct (fetch _) as [response|e]; cbn; [|eauto].
    destruct (ok response); cbn; [|eauto].
    destruct (json response) as [data|e]; cbn; [|eauto].
    destruct (Value.get "question" data); cbn; eauto.
  - intros q a. unfold validateAnswer.
    destruct (fetch _) as [response|e]; cbn; [|eauto].
    destruct (ok response); cbn; [|eauto].
    destruct (json response) as [data|e]; cbn; eauto.
  - intros t. unfold generateSpeech.
    destruct (fetch _) as [response|e]; cbn; [|eauto].
    destruct (ok response); cbn; [|eauto].
    destruct (json response) as [data|e]; cbn; [|eauto].
    destruct (Value.get "audio" data); cbn; eauto.
Qed.

(** When the request fails (network error, status not ok, body not
    JSON) each function resolves to its fixed fallback: the question
    "Could not generate a question.", the evaluation with feedback
    "Error validating answer" and score 0, and [null] for the speech. *)
Theorem backend_fallbacks :
  (forall selectedSkills previousQuestions,
     failed fetch (GenerateQuestion selectedSkills previousQuestions) ->
     generateInterviewQuestion fetch selectedSkills previousQuestions
     = Fulfilled (Value.Str "Could not generate a question.")) /\
  (forall question answer,
     failed fetch (ValidateAnswer question answer) ->
     validateAnswer fetch question answer
     = Fulfilled
         (Value.Obj [("feedback", Value.Str "Error validating answer");
                     ("score", Value.Number 0)])) /\
  (forall spoken,
     failed fetch (Tts spoken) ->
     generateSpeech fetch spoken = Fulfilled Value.Null).
Proof.
  unfold failed. split; [|split].
  - intros sk prev. unfold generateInterviewQuestion.
    destruct (fetch _) as [response|e]; cbn; [|reflexivity].
    intros [-> | [e ->]]; [reflexivity|].
    destruct (ok response); reflexivity.
  - intros q a. unfold validateAnswer.
    destruct (fetch _) as [response|e]; cbn; [|reflexivity].
    intros [-> | [e ->]]; [reflexivity|].
    destruct (ok response); reflexivity.
  - intros t. unfold generateSpeech.
    destruct (fetch _) as [response|e]; cbn; [|reflexivity].
    intros [-> | [e ->]]; [reflexivity|].
    destruct (ok response); reflexivity.
Qed.

(** When the request is answered with a JSON object, nothing of it is
    checked.  The question is the value under "question", and
    [undefined] (not the fallback) when the object has no such key; the
    evaluation is the object itself, whatever its keys; the speech is
    the value under "audio", or [null] when that is missing or falsy. *)
Theorem backend_passes_answer_through (fields : list (string * Value.t)) :
  (forall selectedSkills previousQuestions,
     answered fetch (GenerateQuestion selectedSkills previousQuestions)
       fields ->
     generateInterviewQuestion fetch selectedSkills previousQuestions
     = Fulfilled (Value.field "question" fields) /\
     ((forall v, ~ In ("question", v) fields) ->
      generateInterviewQuestion fetch selectedSkills previousQuestions
      = Fulfilled Value.Undefined)) /\
  (forall question answer,
     answered fetch (ValidateAnswer question answer) fields ->
     validateAnswer fetch question answer = Fulfilled (Value.Obj fields)) /\
  (forall spoken,
     answered fetch (Tts spoken) fields ->
     generateSpeech fetch spoken
     = Fulfilled (if Value.truthy (Value.field "audio" fields)
                  then Value.field "audio" fields else Value.Null)).
Proof.
  unfold answered. split; [|split].
  - intros sk prev (response & Hf & Hok & Hj).
    unfold generateInterviewQuestion. rewrite Hf. cbn. rewrite Hok, Hj. cbn.
    split; [reflexivity|]. intros Hno. f_equal.
    clear Hf Hok Hj. induction fields as [|[k v] rest IH]; [reflexivity|].
    cbn [Value.field]. destruct (String.eqb_spec k "question") as [->|_].
    + exfalso. apply (Hno v). left. reflexivity.
    + apply IH. intros v' Hin. apply (Hno v'). right. exact Hin.
  - intros q a (response & Hf & Hok & Hj).
    unfold validateAnswer. rewrite Hf. cbn. rewrite Hok, Hj. reflexivity.
  - intros t (response & Hf & Hok & Hj).
    unfold generateSpeech. rewrite Hf. cbn. rewrite Hok, Hj. reflexivity.
Qed.

(** The speech is [null] or a truthy value, never the empty string:
    the test [if (audioData)] of the component fails exactly on
    [null]. *)
Theorem generateSpeech_null_or_truthy (spoken : string) (v : Value.t) :
  generateSpeech fetch spoken = Fulfilled v ->
  v = Value.Null \/ Value.truthy v = true.
Proof.
  unfold generateSpeech.
  destruct (fetch _) as [response|e]; cbn; [|intros [= <-]; auto].
  destruct (ok response); cbn; [|intros [= <-]; auto].
  destruct (json response) as [data|e]; cbn; [|intros [= <-]; auto].
  destruct (Value.get "audio" data) as [audio0|e]; cbn;
    [|intros [= <-]; auto].
  unfold Value.or. destruct (Value.truthy audio0) eqn:E;
    intros [= <-]; auto.
Qed.

(** [parseResumeForSkills] resolves only when the payload is base64,
    the request is answered with status ok and the body is JSON, and
    then to that body as it is; in every other case it rejects, always
    with the error "Failed to parse resume. Please try again.". *)
Theorem parseResumeForSkills_outcome (fileData mimeType : string) :
  (forall skills0,
     parseResumeForSkills fetch fileData mimeType = Fulfilled skills0 <->
     exists byteCharacters response,
       atob fileData = Some byteCharacters /\
       fetch (ParseResume
                (map byte_of_ascii (list_ascii_of_string byteCharacters))
                mimeType) = Fulfilled response /\
       ok response = true /\ json response = Fulfilled skills0) /\
  (forall e,
     parseResumeForSkills fetch fileData mimeType = Rejected e ->
     e = OtherError "Failed to parse resume. Please try again.").
Proof.
  unfold parseResumeForSkills. split.
  - intros skills0. split.
    + destruct (atob fileData) as [chars|]; cbn; [|discriminate].
      destruct (fetch _) as [response|e] eqn:Hf; cbn; [|discriminate].
      destruct (ok response) eqn:Hok; cbn; [|discriminate].
      destruct (json response) as [data|e] eqn:Hj; cbn; [|discriminate].
      intros [= <-]. exists chars, response. rewrite Hf. auto.
    + intros (chars & response & -> & Hf & Hok & Hj). cbn.
      rewrite Hf. cbn. rewrite Hok, Hj. reflexivity.
  - intros e.
    destruct (atob fileData) as [chars|]; cbn; [|congruence].
    destruct (fetch _) as [response|e']; cbn; [|congruence].
    destruct (ok response); cbn; [|congruence].
    destruct (json response) as [data|e']; cbn; congruence.
Qed.

End Services.

Lemma backend_fallbacks_witness :
  generateInterviewQuestion down [goSkill] []
    = Fulfilled (Value.Str "Could not generate a question.") /\
  generateSpeech down "Q1" = Fulfilled Value.Null.
Proof.
  destruct (backend_fallbacks down) as (H1 & _ & H3).
  split; [apply H1; exact I | apply H3; exact I].
Defined.

Lemma backend_passes_answer_through_witness :
  generateInterviewQuestion (replies [("text", Value.Str "Q1")]) [goSkill] []
    = Fulfilled Value.Undefined /\
  generateSpeech (replies [("text", Value.Str "Q1")]) "Q1"
    = Fulfilled Value.Null.
Proof.
  destruct (backend_passes_answer_through
              (replies [("text", Value.Str "Q1")])
              [("text", Value.Str "Q1")]) as (H1 & _ & H3).
  split.
  - apply H1.
    + eexists. split; [reflexivity|]. split; reflexivity.
    + intros v [H|[]]. discriminate H.
  - apply (H3 "Q1"). eexists. split; [reflexivity|]. split; reflexivity.
Defined.

Lemma generateSpeech_null_or_truthy_witness :
  Value.Str "AAA=" = Value.Null \/ Value.truthy (Value.Str "AAA=") = true.
Proof.
  apply (generateSpeech_null_or_truthy
           (replies [("audio", Value.Str "AAA=")]) "Q1").
  reflexivity.
Defined.

Lemma parseResumeForSkills_outcome_witness :
  parseResumeForSkills (replies []) "SGk=" "text/plain"
    = Fulfilled (Value.Obj []) /\
  forall e,
    parseResumeForSkills down "SGk=" "text/plain" = Rejected e ->
    e = OtherError "Failed to parse resume. Please try again.".
Proof.
  split.
  - apply (parseResumeForSkills_outcome (replies []) "SGk=" "text/plain").
    eexists. eexists. split; [reflexivity|]. split; [reflexivity|].
    split; reflexivity.
  - apply (parseResumeForSkills_outcome down "SGk=" "text/plain").
Defined.

End BackendFacts.

(* ================================================================== *)
(** * The collaborators on the model API *)
(* ================================================================== *)

Module GeminiFacts.
Import Js Session Gemini.

Lemma skillIdAt_inj : Inj (=) (=) skillIdAt.
Proof.
  intros i j H. unfold skillIdAt, toString in H.
  apply (inj Z.of_nat), (inj pretty). simplify_eq/=. reflexivity.
Qed.

Lemma NoDup_map_inj {A B} (f : A -> B) (l : list A) :
  (forall x y, f x = f y -> x = y) ->
  List.NoDup l -> List.NoDup (map f l).
Proof.
  intros Hf. induction 1 as [|x l Hx Hl IH]; cbn [map]; constructor.
  - intros Hin. apply List.in_map_iff in Hin as (y & Hy & Hin).
    apply Hf in Hy. subst y. apply Hx, Hin.
  - exact IH.
Qed.

Lemma toSkills_spec (entries : list Value.t) :
  forall index l,
    toSkills index entries = Fulfilled l ->
    map extractedId l = map skillIdAt (seq index (length entries)) /\
    Forall (fun s => extractedSelected s = true) l /\
    Forall2 builtFrom entries l.
Proof.
  induction entries as [|entry rest IH]; intros index l; cbn [toSkills].
  - intros [= <-]. repeat split; constructor.
  - destruct (Value.get "name" entry) as [name0|] eqn:Hn; cbn; [|discriminate].
    destruct (Value.get "category" entry) as [cat0|] eqn:Hc; cbn;
      [|discriminate].
    destruct (toSkills (S index) rest) as [more|] eqn:Hm; cbn; [|discriminate].
    intros [= <-]. destruct (IH _ _ Hm) as (H1 & H2 & H3).
    cbn [map extractedId length seq]. rewrite H1. repeat split.
    + constructor; [reflexivity | exact H2].
    + constructor; [split; assumption | exact H3].
Qed.

Lemma dropWhile_headKept {A} (p : A -> bool) (l : list A) :
  headKept p (dropWhile p l).
Proof.
  induction l as [|x l IH]; cbn; [exact I|].
  destruct (p x) eqn:E; [exact IH | exact E].
Qed.

Lemma dropWhile_fixed {A} (p : A -> bool) (l : list A) :
  headKept p l -> dropWhile p l = l.
Proof. destruct l as [|x l]; cbn; [reflexivity|]. intros ->. reflexivity. Qed.

Lemma dropWhile_suffix {A} (p : A -> bool) (l : list A) :
  exists dropped, l = dropped ++ dropWhile p l.
Proof.
  induction l as [|x l [d IH]]; [exists []; reflexivity|]. cbn.
  destruct (p x); [|exists []; reflexivity].
  exists (x :: d). cbn. rewrite <- IH. reflexivity.
Qed.

Lemma trim_trim (s : string) : trim (trim s) = trim s.
Proof.
  unfold trim. set (m := dropWhile isWhiteSpace (list_ascii_of_string s)).
  set (X := rev (dropWhile isWhiteSpace (rev m))).
  rewrite list_ascii_of_string_of_list_ascii.
  assert (HX : headKept isWhiteSpace X).
  { destruct (dropWhile_suffix isWhiteSpace (rev m)) as [d Hd].
    assert (Hm : m = X ++ rev d).
    { rewrite <- (rev_involutive m), Hd, rev_app_distr. reflexivity. }
    pose proof (dropWhile_headKept isWhiteSpace (list_ascii_of_string s))
      as Hh. fold m in Hh. rewrite Hm in Hh.
    destruct X as [|x X']; [exact I | exact Hh]. }
  rewrite (dropWhile_fixed _ _ HX).
  assert (Hr : rev X = dropWhile isWhiteSpace (rev m))
    by (unfold X; apply rev_involutive).
  rewrite Hr, (dropWhile_fixed _ _ (dropWhile_headKept _ _)).
  reflexivity.
Qed.

Section Services.
Context (generateContent : Request -> Settled Response)
        (parse : string -> Settled Value.t).

(** When [parseResumeForSkills] resolves, the call was answered, the
    text of the answer (or "{}") was parsed, and the value under
    "skills" of what was parsed (or the empty array) is an array; the
    skills are in the order of its entries, each with the name and
    category of its entry; their ids are "skill-0", "skill-1", ... and
    so pairwise distinct; and every skill is selected. *)
Theorem parseResumeForSkills_skills (fileData mimeType : string)
    (l : list ExtractedSkill) :
  parseResumeForSkills generateContent parse fileData mimeType
    = Fulfilled l ->
  map extractedId l = map skillIdAt (seq 0 (length l)) /\
  List.NoDup (map extractedId l) /\
  Forall (fun s => extractedSelected s = true) l /\
  exists response data skills0 entries,
    generateContent (ExtractSkills fileData mimeType) = Fulfilled response /\
    parse (textOr (responseText response) "{}") = Fulfilled data /\
    Value.get "skills" data = Fulfilled skills0 /\
    Value.or skills0 (Value.Arr []) = Value.Arr entries /\
    Forall2 builtFrom entries l.
Proof.
  unfold parseResumeForSkills.
  destruct (generateContent _) as [response|] eqn:Hg; cbn; [|discriminate].
  destruct (parse _) as [data|] eqn:Hp; cbn; [|discriminate].
  destruct (Value.get "skills" data) as [skills0|] eqn:Hs; cbn;
    [|discriminate].
  unfold mapEntries.
  destruct (Value.or skills0 (Value.Arr [])) as [| | | | |entries|] eqn:Ho;
    cbn; try discriminate.
  destruct (toSkills 0 entries) as [l'|] eqn:Ht; cbn; [|discriminate].
  intros [= <-]. destruct (toSkills_spec _ _ _ Ht) as (H1 & H2 & H3).
  assert (Hlen : length l' = length entries)
    by (symmetry; eapply Forall2_length; exact H3).
  rewrite Hlen. split; [exact H1|]. split.
  - rewrite H1. apply NoDup_map_inj; [apply skillIdAt_inj|].
    apply List.seq_NoDup.
  - split; [exact H2|]. exists response, data, skills0, entries. auto.
Qed.

(** Every failure of [parseResumeForSkills] (a failed call, text that
    is not JSON, a body [null], skills that are no array, an entry
    [null]) surfaces as the one error "Failed to parse resume. Please
    try again."; and a response with no text, or whose object has no
    skills, gives the empty list. *)
Theorem parseResumeForSkills_edges (fileData mimeType : string) :
  (forall e,
     parseResumeForSkills generateContent parse fileData mimeType
       = Rejected e ->
     e = OtherError "Failed to parse resume. Please try again.") /\
  (forall response fields,
     generateContent (ExtractSkills fileData mimeType)
       = Fulfilled response ->
     parse (textOr (responseText response) "{}")
       = Fulfilled (Value.Obj fields) ->
     Value.truthy (Value.field "skills" fields) = false ->
     parseResumeForSkills generateContent parse fileData mimeType
       = Fulfilled []).
Proof.
  unfold parseResumeForSkills, failedToParse. split.
  - intros e.
    destruct (generateContent _) as [response|]; cbn; [|congruence].
    destruct (parse _) as [data|]; cbn; [|congruence].
    destruct (Value.get "skills" data) as [skills0|]; cbn; [|congruence].
    destruct (mapEntries _); cbn; congruence.
  - intros response fields -> Hp Hs. cbn. rewrite Hp. cbn.
    unfold Value.or. rewrite Hs. reflexivity.
Qed.

(** [generateInterviewQuestion] never resolves to an empty or blank
    question: the result is not empty and has no white space at either
    end; without a text in the response, and for a text that is all
    white space, it is "Could not generate a question.". *)
Theorem generateInterviewQuestion_text (selectedSkills : list Skill)
    (previousQuestions : list string) (question : string) :
  generateInterviewQuestion generateContent selectedSkills previousQuestions
    = Fulfilled question ->
  question <> "" /\ trim question = question /\
  exists response,
    generateContent (AskQuestion (skillsList selectedSkills)
                       previousQuestions) = Fulfilled response /\
    match responseText response with
    | Some text0 =>
        question = if truthy (trim text0) then trim text0
                   else "Could not generate a question."
    | None => question = "Could not generate a question."
    end.
Proof.
  unfold generateInterviewQuestion.
  destruct (generateContent _) as [response|]; cbn; [|discriminate].
  intros [= <-]. unfold textOr.
  destruct (responseText response) as [text0|] eqn:Ht; cbn [option_map].
  - destruct (truthy (trim text0)) eqn:E.
    + split; [intros H; rewrite H in E; discriminate E|].
      split; [apply trim_trim|]. exists response.
      rewrite Ht, E. auto.
    + split; [discriminate|]. split; [reflexivity|].
      exists response. rewrite Ht, E. auto.
  - split; [discriminate|]. split; [reflexivity|]. exists response.
    rewrite Ht. auto.
Qed.

(** When [validateAnswer] resolves, the call was answered and the text
    of the answer (or "{}") was parsed; the feedback is the value under
    "feedback" of what was parsed when that is truthy and
    "No feedback provided." otherwise, so it is never empty; the score
    is the value under "score" when that is truthy and 0 otherwise. *)
Theorem validateAnswer_defaults (question answer : string)
    (evaluation : Evaluation) :
  validateAnswer generateContent parse question answer
    = Fulfilled evaluation ->
  exists response data feedback0 score0,
    generateContent (Evaluate question answer) = Fulfilled response /\
    parse (textOr (responseText response) "{}") = Fulfilled data /\
    Value.get "feedback" data = Fulfilled feedback0 /\
    Value.get "score" data = Fulfilled score0 /\
    evaluationFeedback evaluation
    = (if Value.truthy feedback0 then feedback0
       else Value.Str "No feedback provided.") /\
    evaluationScore evaluation
    = (if Value.truthy score0 then score0 else Value.Number 0) /\
    Value.truthy (evaluationFeedback evaluation) = true.
Proof.
  unfold validateAnswer.
  destruct (generateContent _) as [response|] eqn:Hg; cbn; [|discriminate].
  destruct (parse _) as [data|] eqn:Hp; cbn; [|discriminate].
  destruct (Value.get "feedback" data) as [feedback0|] eqn:Hf; cbn;
    [|discriminate].
  destruct (Value.get "score" data) as [score0|] eqn:Hs; cbn;
    [|discriminate].
  intros [= <-]. cbn [evaluationFeedback evaluationScore]. unfold Value.or.
  exists response, data, feedback0, score0.
  split; [reflexivity|]. split; [exact Hp|].
  split; [exact Hf|]. split; [exact Hs|].
  split; [reflexivity|]. split; [reflexivity|].
  destruct (Value.truthy feedback0) eqn:E; [exact E | reflexivity].
Qed.

(** [generateInterviewQuestion] and [validateAnswer] handle no error: a
    failed call rejects each of them with the error of the call, and
    [validateAnswer] also rejects when the text is not JSON or is the
    JSON [null]. *)
Theorem rejections_propagate (e : Error) :
  (forall selectedSkills previousQuestions,
     generateContent (AskQuestion (skillsList selectedSkills)
                        previousQuestions) = Rejected e ->
     generateInterviewQuestion generateContent selectedSkills
       previousQuestions = Rejected e) /\
  (forall question answer,
     generateContent (Evaluate question answer) = Rejected e ->
     validateAnswer generateContent parse question answer = Rejected e) /\
  (forall question answer response,
     generateContent (Evaluate question answer) = Fulfilled response ->
     parse (textOr (responseText response) "{}") = Rejected e ->
     validateAnswer generateContent parse question answer = Rejected e) /\
  (forall question answer response,
     generateContent (Evaluate question answer) = Fulfilled response ->
     parse (textOr (responseText response) "{}") = Fulfilled Value.Null ->
     validateAnswer generateContent parse question answer
     = Rejected TypeError).
Proof.
  repeat split.
  - intros sk prev H. unfold generateInterviewQuestion. rewrite H. reflexivity.
  - intros q a H. unfold validateAnswer. rewrite H. reflexivity.
  - intros q a response H Hp. unfold validateAnswer. rewrite H. cbn.
    rewrite Hp. reflexivity.
  - intros q a response H Hp. unfold validateAnswer. rewrite H. cbn.
    rewrite Hp. reflexivity.
Qed.

(** [generateSpeech] never rejects, and it resolves to [null] or to a
    payload that is not empty. *)
Theorem generateSpeech_payload (spoken : string) :
  exists audioData,
    generateSpeech generateContent spoken = Fulfilled audioData /\
    audioData <> Some "" /\
    (audioData = None <->
     match generateContent (Speak spoken) with
     | Fulfilled response =>
         inlineData response = None \/ inlineData response = Some ""
     | Rejected _ => True
     end).
Proof.
  unfold generateSpeech.
  destruct (generateContent _) as [response|]; cbn.
  - destruct (inlineData response) as [[|c data]|]; cbn.
    + exists None. repeat split; auto; discriminate.
    + exists (Some (String c data)). repeat split; try discriminate.
      intros [H|H]; discriminate H.
    + exists None. repeat split; auto; discriminate.
  - exists None. repeat split; auto; discriminate.
Qed.

End Services.

Lemma parseResumeForSkills_skills_witness :
  let resume :=
    Value.Obj
      [("skills",
        Value.Arr
          [Value.Obj [("name", Value.Str "Go");
                      ("category", Value.Str "technical")];
           Value.Obj [("name", Value.Str "Talks")]])] in
  let extracted :=
    [ {| extractedId := "skill-0"; extractedName := Value.Str "Go";
         extractedCategory := Value.Str "technical";
         extractedSelected := true |};
      {| extractedId := "skill-1"; extractedName := Value.Str "Talks";
         extractedCategory := Value.Undefined;
         extractedSelected := true |} ] in
  parseResumeForSkills
    (answers {| responseText := Some "J"; inlineData := None |})
    (parseOf [("J", resume)]) "SGk=" "text/plain"
  = Fulfilled extracted /\
  map extractedId extracted = [skillIdAt 0; skillIdAt 1] /\
  List.NoDup (map extractedId extracted).
Proof.
  split; [reflexivity|].
  destruct (parseResumeForSkills_skills
              (answers {| responseText := Some "J"; inlineData := None |})
              (parseOf
                 [("J",
                   Value.Obj
                     [("skills",
                       Value.Arr
                         [Value.Obj [("name", Value.Str "Go");
                                     ("category", Value.Str "technical")];
                          Value.Obj [("name", Value.Str "Talks")]])])])
              "SGk=" "text/plain"
              [ {| extractedId := "skill-0"; extractedName := Value.Str "Go";
                   extractedCategory := Value.Str "technical";
                   extractedSelected := true |};
                {| extractedId := "skill-1";
                   extractedName := Value.Str "Talks";
                   extractedCategory := Value.Undefined;
                   extractedSelected := true |} ])
    as (H1 & H2 & _); [reflexivity|].
  split; [exact H1 | exact H2].
Defined.

Lemma parseResumeForSkills_edges_witness :
  parseResumeForSkills
    (answers {| responseText := None; inlineData := None |})
    (parseOf [("{}", Value.Obj [])]) "SGk=" "text/plain"
  = Fulfilled [] /\
  forall e,
    parseResumeForSkills unavailable (parseOf []) "SGk=" "text/plain"
      = Rejected e ->
    e = OtherError "Failed to parse resume. Please try again.".
Proof.
  split.
  - apply (parseResumeForSkills_edges
             (answers {| responseText := None; inlineData := None |})
             (parseOf [("{}", Value.Obj [])]) "SGk=" "text/plain")
      with (response := {| responseText := None; inlineData := None |})
           (fields := []); reflexivity.
  - apply (parseResumeForSkills_edges unavailable (parseOf [])
             "SGk=" "text/plain").
Defined.

Lemma generateInterviewQuestion_text_witness :
  "What is a goroutine?" <> "" /\
  trim "What is a goroutine?" = "What is a goroutine?".
Proof.
  destruct (generateInterviewQuestion_text
              (answers {| responseText := Some "  What is a goroutine?  ";
                          inlineData := None |})
              [goSkill] [] "What is a goroutine?") as (H1 & H2 & _).
  - reflexivity.
  - split; assumption.
Defined.

Lemma validateAnswer_defaults_witness :
  validateAnswer
    (answers {| responseText := Some ""; inlineData := None |})
    (parseOf [("{}", Value.Obj [("score", Value.Number 7)])]) "Q1" "A1"
  = Fulfilled {| evaluationFeedback := Value.Str "No feedback provided.";
                 evaluationScore := Value.Number 7 |} /\
  validateAnswer
    (answers {| responseText := Some "J"; inlineData := None |})
    (parseOf [("J", Value.Obj [("feedback", Value.Str "Good");
                               ("score", Value.Number 0)])]) "Q1" "A1"
  = Fulfilled {| evaluationFeedback := Value.Str "Good";
                 evaluationScore := Value.Number 0 |} /\
  Value.truthy (Value.Str "No feedback provided.") = true.
Proof.
  split; [reflexivity|]. split; [reflexivity|].
  destruct (validateAnswer_defaults
              (answers {| responseText := Some ""; inlineData := None |})
              (parseOf [("{}", Value.Obj [("score", Value.Number 7)])])
              "Q1" "A1"
              {| evaluationFeedback := Value.Str "No feedback provided.";
                 evaluationScore := Value.Number 7 |})
    as (response & data & feedback0 & score0 & _ & _ & _ & _ & _ & _ & H);
    [reflexivity | exact H].
Defined.

Lemma rejections_propagate_witness :
  validateAnswer unavailable (parseOf []) "Q1" "A1"
    = Rejected (OtherError "Service Unavailable") /\
  validateAnswer
    (answers {| responseText := Some "{"; inlineData := None |})
    (parseOf []) "Q1" "A1"
    = Rejected (OtherError "SyntaxError").
Proof.
  split.
  - destruct (rejections_propagate unavailable (parseOf [])
                (OtherError "Service Unavailable")) as (_ & H & _).
    apply H. reflexivity.
  - destruct (rejections_propagate
                (answers {| responseText := Some "{"; inlineData := None |})
                (parseOf []) (OtherError "SyntaxError")) as (_ & _ & H & _).
    apply (H "Q1" "A1" {| responseText := Some "{"; inlineData := None |});
      reflexivity.
Defined.

End GeminiFacts.

(* ================================================================== *)
(** * The cycle of question, answer and evaluation *)
(* ================================================================== *)

Module CycleFacts.
Import Js Session SessionFacts Cycle.

Lemma cons_Permutation_cases {A} (x y : A) (l k : list A) :
  x :: l ≡ₚ y :: k ->
  (x = y /\ l ≡ₚ k) \/ exists k', k ≡ₚ x :: k' /\ l ≡ₚ y :: k'.
Proof.
  intros H. assert (Hx : x ∈ y :: k) by (rewrite <- H; left).
  apply elem_of_cons in Hx as [->|Hx].
  - left. split; [reflexivity|]. eapply Permutation_cons_inv, H.
  - right. apply elem_of_Permutation in Hx as [k' Hk']. exists k'.
    split; [exact Hk'|]. apply (Permutation_cons_inv (a := x)).
    rewrite H, Hk'. apply perm_swap.
Qed.

Lemma filter_length_Permutation {A} (p : A -> bool) (l k : list A) :
  l ≡ₚ k -> length (List.filter p l) = length (List.filter p k).
Proof.
  induction 1 as [|x l k _ IH|x y l|l k m _ IH1 _ IH2]; cbn [List.filter].
  - reflexivity.
  - destruct (p x); cbn [length]; congruence.
  - destruct (p x), (p y); reflexivity.
  - congruence.
Qed.

Lemma lastRole_snoc (l : list Message) (m : Message) :
  lastRole (l ++ [m]) = Some (role m).
Proof. unfold lastRole. rewrite last_snoc. reflexivity. Qed.

Lemma lastRole_nonempty (l : list Message) (r : Role) :
  lastRole l = Some r -> l <> [].
Proof. intros H ->. discriminate H. Qed.

Lemma lastRole_attach (userId : string) (validation : Validation)
    (l : list Message) :
  lastRole (attachValidation userId validation l) = lastRole l.
Proof.
  unfold lastRole, attachValidation. change (map ?f l) with (f <$> l).
  rewrite fmap_last. destruct (last l) as [m|]; [|reflexivity].
  cbn. destruct (String.eqb (id m) userId); reflexivity.
Qed.

Lemma alternatesFrom_attach (userId : string) (validation : Validation)
    (l : list Message) :
  forall expected,
    alternatesFrom expected (attachValidation userId validation l)
    = alternatesFrom expected l.
Proof.
  unfold attachValidation.
  induction l as [|m l IH]; intros expected; [reflexivity|].
  cbn [map alternatesFrom]. rewrite IH.
  destruct (String.eqb (id m) userId); reflexivity.
Qed.

Lemma alternatesFrom_snoc (l : list Message) (m : Message) :
  forall expected,
    alternatesFrom expected l = true ->
    alternatesFrom expected (l ++ [m])
    = sameRole (role m)
        (match lastRole l with
         | Some r => otherRole r
         | None => expected
         end).
Proof.
  induction l as [|x l IH]; intros expected H.
  - cbn. apply andb_true_r.
  - cbn [alternatesFrom app] in *. apply andb_true_iff in H as [Hx Hl].
    rewrite Hx, (IH _ Hl). cbn [andb]. unfold lastRole.
    destruct l as [|y l].
    + cbn. destruct (role x), expected; try discriminate Hx; reflexivity.
    + rewrite last_cons_cons.
      destruct (last (y :: l)) eqn:E; [reflexivity|].
      apply last_None in E. discriminate E.
Qed.

Lemma startsWithInit_snoc (l : list Message) (m : Message) :
  l <> [] -> startsWithInit l -> startsWithInit (l ++ [m]).
Proof. destruct l; [congruence | auto]. Qed.

Lemma startsWithInit_attach (userId : string) (validation : Validation)
    (l : list Message) :
  startsWithInit l -> startsWithInit (attachValidation userId validation l).
Proof.
  destruct l as [|m l]; [auto|]. cbn.
  destruct (String.eqb (id m) userId); auto.
Qed.

Lemma audioAwait_resume (t : Task) (r : Response)
    (k : World -> World * list Task) :
  audioAwait t -> resume t r = Some k ->
  forall w, sameSession w (fst (k w)) /\ Forall audioAwait (snd (k w)).
Proof.
  intros Ht Hr w.
  destruct Ht as [sp k' H|k' H]; destruct r; cbn [resume] in Hr;
    try discriminate Hr; injection Hr as <-; apply H.
Qed.

Lemma roundTrips_audio (l : list Task) :
  Forall audioAwait l -> roundTrips l = [].
Proof.
  unfold roundTrips. induction 1 as [|t l Ht _ IH]; [reflexivity|].
  cbn [List.filter]. destruct Ht; cbn [isRoundTrip]; exact IH.
Qed.

Section Component.
Context (selectedSkills : list Skill) (env : Env).

#[local] Abbreviation handleSendMessage :=
  (handleSendMessage selectedSkills env).
#[local] Abbreviation handlePlayAudio := (handlePlayAudio env).
#[local] Abbreviation callPlayAudio := (callPlayAudio env).
#[local] Abbreviation step := (step selectedSkills env).
#[local] Abbreviation run := (run selectedSkills env).
#[local] Abbreviation mount := (mount selectedSkills env).
#[local] Abbreviation steady := (steady selectedSkills env).

Lemma callPlayAudio_audioAwait (audioData : string) (w : World) :
  sameSession w (fst (callPlayAudio audioData w)) /\
  Forall audioAwait (snd (callPlayAudio audioData w)).
Proof.
  unfold Session.callPlayAudio.
  destruct (playAudio_begin env audioData (Some ResetIsPlaying) (audio w))
    as [[a fired] [k|]]; cbn [fst snd].
  - split; [apply (runCallbacks_sameSession fired (setAudio a w))|].
    constructor; [|constructor]. apply audioAwait_decode. intros w'.
    destruct (playAudio_resume k (audio w')) as [a' fired']. cbn [fst snd].
    split; [apply (runCallbacks_sameSession fired' (setAudio a' w'))|].
    constructor.
  - split; [apply (runCallbacks_sameSession fired (setAudio a w))|].
    constructor.
Qed.

Lemma handlePlayAudio_audioAwait (isPlaying0 : bool) (text0 : string)
    (w : World) :
  sameSession w (fst (handlePlayAudio isPlaying0 text0 w)) /\
  Forall audioAwait (snd (handlePlayAudio isPlaying0 text0 w)).
Proof.
  unfold Session.handlePlayAudio. destruct isPlaying0; cbn [fst snd].
  - split; [repeat split | constructor].
  - split; [repeat split|]. constructor; [|constructor].
    apply audioAwait_speech. intros [data|] w'.
    + destruct (truthy data); [apply callPlayAudio_audioAwait|].
      split; [repeat split | constructor].
    + split; [repeat split | constructor].
Qed.

Lemma handleSendMessage_accepts (w : World) (m : Message) :
  truthy (trim (inputText w)) = true ->
  last (messages w) = Some m ->
  isLoading (after (handleSendMessage w)) = true /\
  (exists userMsg,
     role userMsg = user /\
     messages (after (handleSendMessage w)) = messages w ++ [userMsg]) /\
  exists t, awaits (handleSendMessage w) = [t] /\ validationAwait t.
Proof.
  intros Ht Hl. unfold Session.handleSendMessage. rewrite Ht, Hl.
  cbn [negb after awaits]. split; [reflexivity|].
  split; [eexists; split; [|reflexivity]; reflexivity|].
  eexists. split; [reflexivity|].
  unfold validationAwait. do 3 eexists. split; [reflexivity|].
  intros validation w1. do 2 eexists. split; [reflexivity|].
  unfold questionAwait. do 3 eexists. split; [reflexivity|].
  intros question w2. cbv beta iota zeta.
  match goal with
  | |- context [Session.handlePlayAudio ?e ?p ?t ?x] =>
      pose proof (handlePlayAudio_audioAwait p t x) as [[Hm _] Ha];
      destruct (Session.handlePlayAudio e p t x) as [w3 ts]
  end.
  cbn [fst snd messages isLoading setMessages setIsLoading] in *.
  split; [reflexivity|]. split; [|exact Ha].
  eexists. split; [|exact Hm]. reflexivity.
Qed.

(** A change of the state that leaves the transcript and [isLoading]
    alone, and adds only narration, keeps a steady system steady. *)
Lemma steady_keep (s : System) (w' : World) (p' ts : list Task) :
  steady s ->
  messages w' = messages (world s) ->
  isLoading w' = isLoading (world s) ->
  p' = pending s ++ ts ->
  Forall audioAwait ts ->
  (messages (world s) = [] -> ts = []) ->
  steady {| world := w'; pending := p' |}.
Proof.
  intros (Ha & Hi & Hph) Hm Hl -> Hts Hnil.
  unfold Cycle.steady. cbn [world pending]. rewrite Hm, Hl.
  split; [exact Ha|]. split; [exact Hi|].
  destruct Hph as [(H1 & H2 & H3)|[(H1 & H2 & H3)|
                   (H1 & H2 & t & rest & H3 & H4 & H5)]].
  - left. rewrite (Hnil H2), app_nil_r.
    split; [exact H1|]. split; [exact H2 | exact H3].
  - right; left. split; [exact H1|]. split; [exact H2|].
    apply Forall_app. split; assumption.
  - right; right. split; [exact H1|]. split; [exact H2|].
    exists t, (rest ++ ts). split; [rewrite H3; reflexivity|].
    split; [exact H4 | apply Forall_app; split; assumption].
Qed.

Lemma callSendMessage_steady (s : System) :
  steady s ->
  isLoading (world s) = false ->
  truthy (trim (inputText (world s))) = true ->
  steady (callSendMessage selectedSkills env s).
Proof.
  intros (Ha & Hi & Hph) Hl Ht.
  destruct Hph as [(H1 & _)|[(_ & H2 & H3)|(H1 & _)]]; try congruence.
  unfold lastRole in H2.
  destruct (last (messages (world s))) as [m|] eqn:Hlast; [|discriminate H2].
  destruct (handleSendMessage_accepts (world s) m Ht Hlast)
    as (Hload & (userMsg & Hrole & Hmsg) & t & Hawaits & Hval).
  unfold callSendMessage, Cycle.steady. cbn [world pending].
  rewrite Hmsg, Hload, Hawaits.
  split.
  { unfold alternating in *. rewrite (alternatesFrom_snoc _ _ _ Ha).
    unfold lastRole. rewrite Hlast. cbn [option_map] in *.
    injection H2 as ->. rewrite Hrole. reflexivity. }
  split.
  { apply startsWithInit_snoc; [|exact Hi].
    intros E. rewrite E in Hlast. discriminate Hlast. }
  right; right. split; [reflexivity|].
  split; [rewrite lastRole_snoc, Hrole; reflexivity|].
  exists t, (pending s). split; [apply Permutation_app_comm|].
  split; [left; exact Hval | exact H3].
Qed.

(** Every event other than a rejected evaluation or question takes a
    steady system to a steady system. *)
Lemma step_steady (s : System) (e : Event) :
  noRejectionIn e -> steady s -> steady (step s e).
Proof.
  intros Hok Hs.
  destruct e as [now|value| | |i|i r|n]; cbn [Session.step].
  - (* Tick *)
    apply (steady_keep s _ _ []); auto; symmetry; apply app_nil_r.
  - (* Change *)
    destruct (textareaDisabled (world s)); [exact Hs|].
    apply (steady_keep s _ _ []); auto; symmetry; apply app_nil_r.
  - (* ClickSend *)
    unfold sendDisabled.
    destruct (truthy (trim (inputText (world s)))) eqn:Ht; cbn [negb orb];
      [|exact Hs].
    destruct (isLoading (world s)) eqn:Hl; [exact Hs|].
    apply callSendMessage_steady; assumption.
  - (* KeyEnter *)
    unfold textareaDisabled.
    destruct (isLoading (world s)) eqn:Hl; [exact Hs|].
    destruct (truthy (trim (inputText (world s)))) eqn:Ht;
      [apply callSendMessage_steady; assumption|].
    rewrite callSendMessage_rejected; [exact Hs|].
    left. apply truthy_false, Ht.
  - (* ClickReadAloud *)
    destruct (messages (world s) !! i) as [m|] eqn:Hi; [|exact Hs].
    destruct (isAi m); [|exact Hs].
    pose proof (handlePlayAudio_audioAwait (isPlaying (world s)) (text m)
                  (world s)) as [(Hm & _ & Hl) Hts].
    destruct (Session.handlePlayAudio env (isPlaying (world s)) (text m)
                (world s)) as [w' ts].
    cbn [fst snd] in *.
    apply (steady_keep s w' _ ts); auto.
    intros E. rewrite E in Hi. discriminate Hi.
  - (* Settle *)
    destruct (pending s !! i) as [t|] eqn:Hi; [|exact Hs].
    destruct (resume t r) as [k|] eqn:Hr; [|exact Hs].
    destruct Hs as (Ha & Hin & [(H1 & H2 & H3)|[(H1 & H2 & H3)|
                   (H1 & H2 & t0 & rest & H3 & H4 & H5)]]).
    + (* the first question *)
      rewrite H3 in Hi. cbn [startInterview snd] in Hi.
      destruct i as [|i]; [|discriminate Hi].
      injection Hi as <-. destruct r as [ |r| | ]; try discriminate Hr.
      injection Hr as <-. destruct r as [question|err]; [|destruct Hok].
      cbv beta iota zeta.
      unfold Cycle.steady.
      cbn [world pending messages isLoading setIsPlaying setIsLoading
           setMessages].
      rewrite H3. cbn [startInterview snd delete app].
      split; [reflexivity|]. split; [reflexivity|].
      right; left. split; [reflexivity|]. split; [reflexivity|].
      exact (proj2 (handlePlayAudio_audioAwait false question (world s))).
    + (* narration, while an answer is awaited *)
      assert (Ht : audioAwait t)
        by (rewrite Forall_lookup in H3; exact (H3 i t Hi)).
      destruct (audioAwait_resume t r k Ht Hr (world s))
        as [(Hm & _ & Hl) Hts].
      destruct (k (world s)) as [w' ts]. cbn [fst snd] in *.
      unfold Cycle.steady. cbn [world pending]. rewrite Hm, Hl.
      split; [exact Ha|]. split; [exact Hin|].
      right; left. split; [exact H1|]. split; [exact H2|].
      apply Forall_app. split; [apply Forall_delete, H3 | exact Hts].
    + (* while a turn is processed *)
      assert (Hdel : t :: delete i (pending s) ≡ₚ t0 :: rest).
      { etransitivity; [symmetry; apply delete_Permutation, Hi | exact H3]. }
      apply cons_Permutation_cases in Hdel
        as [[-> Hrest]|(rest' & Hrest & Hdel)].
      * destruct H4 as [Hv|Hq].
        -- (* the evaluation arrives *)
           destruct Hv as (question & answer & k0 & -> & Hk).
           destruct r as [r| | | ]; try discriminate Hr.
           injection Hr as <-. destruct r as [validation|err];
             [|destruct Hok].
           destruct (Hk validation (world s)) as (userId & t2 & -> & Hq).
           unfold Cycle.steady. cbn [world pending messages isLoading
                                      setMessages].
           split; [unfold alternating; rewrite alternatesFrom_attach;
                   exact Ha|].
           split; [apply startsWithInit_attach, Hin|].
           right; right. split; [exact H1|].
           split; [rewrite lastRole_attach; exact H2|].
           exists t2, rest. split.
           { rewrite Hrest. apply Permutation_app_comm. }
           split; [right; exact Hq | exact H5].
        -- (* the next question arrives *)
           destruct Hq as (skills0 & previous & k0 & -> & Hk).
           destruct r as [ |r| | ]; try discriminate Hr.
           injection Hr as <-. destruct r as [question|err];
             [|destruct Hok].
           destruct (Hk question (world s))
             as (Hl & (aiMsg & Hrole & Hm) & Hts).
           destruct (k0 (Fulfilled question) (world s)) as [w' ts].
           cbn [fst snd] in *.
           unfold Cycle.steady. cbn [world pending]. rewrite Hm, Hl.
           split.
           { unfold alternating in *. rewrite (alternatesFrom_snoc _ _ _ Ha).
             rewrite H2, Hrole. reflexivity. }
           split.
           { apply startsWithInit_snoc; [|exact Hin].
             eapply lastRole_nonempty, H2. }
           right; left. split; [reflexivity|].
           split; [rewrite lastRole_snoc, Hrole; reflexivity|].
           apply Forall_app. split; [|exact Hts].
           eapply Permutation_Forall; [symmetry; exact Hrest | exact H5].
      * (* narration *)
        pose proof (Permutation_Forall Hrest H5) as H5'.
        inversion H5' as [|? ? Ht Hrest']; subst.
        destruct (audioAwait_resume t r k Ht Hr (world s))
          as [(Hm & _ & Hl) Hts].
        destruct (k (world s)) as [w' ts]. cbn [fst snd] in *.
        unfold Cycle.steady. cbn [world pending]. rewrite Hm, Hl.
        split; [exact Ha|]. split; [exact Hin|].
        right; right. split; [exact H1|]. split; [exact H2|].
        exists t0, (rest' ++ ts). split; [rewrite Hdel; reflexivity|].
        split; [exact H4 | apply Forall_app; split; assumption].
  - (* SourceEnded *)
    destruct (dispatchEnded env n (audio (world s))) as [a fired].
    pose proof (runCallbacks_sameSession fired (setAudio a (world s)))
      as (Hm & _ & Hl).
    apply (steady_keep s _ _ []); auto; symmetry; apply app_nil_r.
Qed.

Lemma mount_steady (a : AudioService.State Callback) (now : Z) :
  steady (mount a now).
Proof.
  split; [reflexivity|]. split; [exact I|]. left. repeat split.
Qed.

Lemma run_steady (es : list Event) :
  forall s, Forall noRejectionIn es -> steady s -> steady (run es s).
Proof.
  unfold Session.run. induction es as [|e es IH]; intros s Hes Hs;
    [exact Hs|].
  inversion Hes as [|? ? He Hes']; subst.
  cbn [fold_left]. apply IH; [exact Hes'|]. apply step_steady; assumption.
Qed.

(** In a session whose evaluations and questions never throw, whatever
    else happens: the transcript begins with the AI turn "init" and AI
    and USER turns alternate; and the last turn is an AI turn exactly
    while the session is not loading (while it is loading the
    transcript is empty or ends with the answer being processed). *)
Theorem transcript_alternates (a : AudioService.State Callback) (now : Z)
    (es : list Event) :
  Forall noRejectionIn es ->
  alternating (messages (world (run es (mount a now)))) = true /\
  startsWithInit (messages (world (run es (mount a now)))) /\
  lastRole (messages (world (run es (mount a now))))
  = if isLoading (world (run es (mount a now)))
    then match messages (world (run es (mount a now))) with
         | [] => None
         | _ :: _ => Some user
         end
    else Some ai.
Proof.
  intros Hes.
  destruct (run_steady es _ Hes (mount_steady a now)) as (Ha & Hi & Hph).
  split; [exact Ha|]. split; [exact Hi|].
  destruct Hph as [(H1 & H2 & _)|[(H1 & H2 & _)|(H1 & H2 & _)]];
    rewrite H1.
  - rewrite H2. reflexivity.
  - exact H2.
  - rewrite H2.
    destruct (messages (world (run es (mount a now)))); [discriminate H2|].
    reflexivity.
Qed.

(** In such a session at most one request for an evaluation or a
    question is outstanding at any time, and exactly one while the
    session is loading: the cycles of the session never overlap. *)
Theorem one_round_trip_while_loading (a : AudioService.State Callback)
    (now : Z) (es : list Event) :
  Forall noRejectionIn es ->
  length (roundTrips (pending (run es (mount a now))))
  = if isLoading (world (run es (mount a now))) then 1%nat else 0%nat.
Proof.
  intros Hes.
  destruct (run_steady es _ Hes (mount_steady a now)) as (_ & _ & Hph).
  destruct Hph as [(H1 & H2 & H3)|[(H1 & H2 & H3)|
                   (H1 & H2 & t & rest & H3 & H4 & H5)]]; rewrite H1.
  - rewrite H3. reflexivity.
  - rewrite (roundTrips_audio _ H3). reflexivity.
  - unfold roundTrips. rewrite (filter_length_Permutation _ _ _ H3).
    cbn [List.filter].
    assert (Ht : isRoundTrip t = true).
    { destruct H4 as [(q & an & k & -> & _)|(sk & pr & k & -> & _)];
        reflexivity. }
    rewrite Ht. cbn [length]. f_equal.
    change (List.filter isRoundTrip rest) with (roundTrips rest).
    rewrite (roundTrips_audio _ H5). reflexivity.
Qed.

End Component.

Lemma transcript_alternates_witness :
  alternating
    (messages
       (world (Session.run [goSkill] browser secondQuestionSounding
                 (Session.mount [goSkill] browser initial 0))))
  = true.
Proof.
  destruct (transcript_alternates [goSkill] browser initial 0
              secondQuestionSounding) as (H & _); [|exact H].
  repeat constructor.
Defined.

Lemma one_round_trip_while_loading_witness :
  length
    (roundTrips
       (pending (Session.run [goSkill] browser answerSubmitted
                   (Session.mount [goSkill] browser initial 0))))
  = (if isLoading
          (world (Session.run [goSkill] browser answerSubmitted
                    (Session.mount [goSkill] browser initial 0)))
     then 1%nat else 0%nat).
Proof.
  exact (one_round_trip_while_loading [goSkill] browser initial 0
           answerSubmitted ltac:(repeat constructor)).
Defined.

End CycleFacts.

(* ================================================================== *)
(** * One turn of the session, from submission to the next question *)
(* ================================================================== *)

Module TurnFacts.
Import Js Session SessionFacts.

Lemma attachValidation_fresh (userId : string) (validation : Validation)
    (l : list Message) (u : Message) :
  Forall (fun x => id x <> userId) l ->
  id u = userId ->
  attachValidation userId validation (l ++ [u])
  = l ++ [withValidation validation u].
Proof.
  intros Hl Hu. unfold attachValidation. rewrite map_app. f_equal.
  - induction Hl as [|x l Hx _ IH]; [reflexivity|]. cbn [map].
    rewrite IH. destruct (String.eqb_spec (id x) userId); [contradiction|].
    reflexivity.
  - cbn [map]. rewrite Hu, String.eqb_refl. reflexivity.
Qed.

Section Component.
Context (selectedSkills : list Skill) (env : Env).

#[local] Abbreviation handleSendMessage :=
  (handleSendMessage selectedSkills env).
#[local] Abbreviation handlePlayAudio := (handlePlayAudio env).
#[local] Abbreviation step := (step selectedSkills env).
#[local] Abbreviation run := (run selectedSkills env).

Lemma settle_last (w : World) (p : list Task) (t : Task) (r : Response)
    (k : World -> World * list Task) :
  resume t r = Some k ->
  step {| world := w; pending := p ++ [t] |} (Settle (length p) r)
  = {| world := fst (k w); pending := p ++ snd (k w) |}.
Proof.
  intros Hr. cbn [Session.step world pending].
  rewrite list_lookup_middle by reflexivity. rewrite Hr.
  rewrite delete_middle, app_nil_r. destruct (k w); reflexivity.
Qed.

Lemma clickSend_accepted (s : System) (m : Message) :
  isLoading (world s) = false ->
  truthy (trim (inputText (world s))) = true ->
  last (messages (world s)) = Some m ->
  step s ClickSend
  = {| world :=
         setIsLoading true
           (setInputText ""
              (setMessages
                 (fun prev =>
                    prev ++ [{| id := toString (clock (world s));
                                role := user;
                                text := inputText (world s);
                                feedback := None; score := None |}])
                 (world s)));
       pending := pending s ++ awaits (handleSendMessage (world s)) |}.
Proof.
  intros Hl Ht Hlast. cbn [Session.step]. unfold sendDisabled.
  rewrite Hl, Ht. cbn [negb orb]. unfold callSendMessage. f_equal.
  unfold Session.handleSendMessage. rewrite Ht, Hlast. reflexivity.
Qed.

(** The narration of the next question is decided by the value that
    [isPlaying] had when the answer was submitted, whatever has happened
    to it since.  If a narration was on at the submission, the arrival
    of the next question stops the audio service and clears the flag,
    and the new question is not narrated; if none was on, the new
    question is narrated, whether or not something is sounding by
    then. *)
Theorem narration_follows_flag_at_submit (w : World) (m : Message) :
  truthy (trim (inputText w)) = true ->
  last (messages w) = Some m ->
  exists k1,
    awaits (handleSendMessage w)
      = [AwaitValidate (text m) (inputText w) k1] /\
    forall validation w1,
      exists previous k2,
        snd (k1 (Fulfilled validation) w1)
          = [AwaitQuestion selectedSkills previous k2] /\
        forall question w2,
          if isPlaying w
          then isPlaying (fst (k2 (Fulfilled question) w2)) = false /\
               audio (fst (k2 (Fulfilled question) w2)) = stop (audio w2) /\
               snd (k2 (Fulfilled question) w2) = []
          else isPlaying (fst (k2 (Fulfilled question) w2)) = true /\
               audio (fst (k2 (Fulfilled question) w2)) = audio w2 /\
               exists k3,
                 snd (k2 (Fulfilled question) w2)
                   = [AwaitSpeech question k3].
Proof.
  intros Ht Hlast. unfold Session.handleSendMessage. rewrite Ht, Hlast.
  cbn [negb awaits]. eexists. split; [reflexivity|].
  intros validation w1. do 2 eexists. split; [reflexivity|].
  intros question w2. cbv beta iota zeta.
  unfold Session.handlePlayAudio. destruct (isPlaying w); cbn.
  - repeat split.
  - split; [reflexivity|]. split; [reflexivity|]. eexists. reflexivity.
Qed.

(** A complete turn.  From a state that accepts the submission and in
    which no turn carries the id that the clock gives to the answer:
    the submission, the arrival of the evaluation and the arrival of the
    next question add exactly two turns behind the transcript as it
    was, the answer with its feedback and score and the new question;
    the text box is empty, the session is no longer loading, and no
    request for an evaluation or a question has been added to the
    outstanding awaits. *)
Theorem turn_adds_answer_and_question (s : System) (m : Message)
    (validation : Validation) (question : string) :
  isLoading (world s) = false ->
  truthy (trim (inputText (world s))) = true ->
  last (messages (world s)) = Some m ->
  Forall (fun x => id x <> toString (clock (world s)))
         (messages (world s)) ->
  let n := length (pending s) in
  let s' := run [ClickSend;
                 Settle n (ValidationSettled (Fulfilled validation));
                 Settle n (QuestionSettled (Fulfilled question))] s in
  messages (world s')
  = messages (world s) ++
    [ {| id := toString (clock (world s)); role := user;
         text := inputText (world s);
         feedback := Some (validationFeedback validation);
         score := Some (validationScore validation) |};
      {| id := toString (clock (world s) + 1); role := ai;
         text := question; feedback := None; score := None |} ] /\
  inputText (world s') = "" /\
  isLoading (world s') = false /\
  List.filter Cycle.isRoundTrip (pending s')
  = List.filter Cycle.isRoundTrip (pending s).
Proof.
  intros Hl Ht Hlast Hfresh n s'. subst n s'.
  unfold Session.run. cbn [fold_left].
  rewrite (clickSend_accepted s m Hl Ht Hlast).
  unfold Session.handleSendMessage. rewrite Ht, Hlast. cbn [negb awaits].
  erewrite settle_last by reflexivity. cbn [fst snd].
  erewrite settle_last by reflexivity.
  unfold Session.handlePlayAudio.
  destruct (isPlaying (world s)); cbn [fst snd world pending messages
    inputText isLoading setMessages setInputText setIsLoading setIsPlaying
    setAudio clock].
  - erewrite attachValidation_fresh; [|exact Hfresh|reflexivity].
    rewrite <- app_assoc. repeat split. rewrite app_nil_r. reflexivity.
  - erewrite attachValidation_fresh; [|exact Hfresh|reflexivity].
    rewrite <- app_assoc. repeat split.
    rewrite List.filter_app. cbn. apply app_nil_r.
Qed.

(** A failed evaluation leaves the answer as the last turn.  When the
    evaluation of a submission throws, the answer stays in the
    transcript without feedback, no question follows it, and the
    session accepts input again; the next answer is then evaluated
    against the text of the previous answer, which stands where the
    question would be. *)
Theorem failed_evaluation_leaves_answer_last (s : System) (m : Message)
    (e : Error) (answer2 : string) :
  isLoading (world s) = false ->
  truthy (trim (inputText (world s))) = true ->
  last (messages (world s)) = Some m ->
  truthy (trim answer2) = true ->
  let n := length (pending s) in
  let s1 := run [ClickSend; Settle n (ValidationSettled (Rejected e))] s in
  messages (world s1)
  = messages (world s) ++
    [ {| id := toString (clock (world s)); role := user;
         text := inputText (world s);
         feedback := None; score := None |} ] /\
  isLoading (world s1) = false /\
  pending s1 = pending s /\
  exists k,
    pending (run [Change answer2; ClickSend] s1)
    = pending s ++ [AwaitValidate (inputText (world s)) answer2 k].
Proof.
  intros Hl Ht Hlast Ht2 n s1. subst n s1.
  set (userMsg := {| id := toString (clock (world s)); role := user;
                     text := inputText (world s);
                     feedback := None; score := None |}).
  assert (Hs1 : run [ClickSend;
                     Settle (length (pending s))
                       (ValidationSettled (Rejected e))] s
                = {| world :=
                       setIsLoading false
                         (setIsLoading true
                            (setInputText ""
                               (setMessages (fun prev => prev ++ [userMsg])
                                  (world s))));
                     pending := pending s |}).
  { unfold Session.run. cbn [fold_left].
    rewrite (clickSend_accepted s m Hl Ht Hlast).
    unfold Session.handleSendMessage. rewrite Ht, Hlast.
    cbn [negb awaits].
    erewrite settle_last by reflexivity. cbn [fst snd].
    rewrite app_nil_r. reflexivity. }
  rewrite Hs1. cbn [world pending messages isLoading setMessages
                    setInputText setIsLoading].
  split; [reflexivity|]. split; [reflexivity|]. split; [reflexivity|].
  unfold Session.run. cbn [fold_left].
  match goal with
  | |- context [Session.step _ _ ?s1 (Change answer2)] =>
      change (Session.step selectedSkills env s1 (Change answer2))
        with {| world := setInputText answer2 (world s1);
                pending := pending s1 |}
  end.
  cbn [world pending].
  erewrite clickSend_accepted;
    [|reflexivity|exact Ht2|cbn [world messages setInputText setIsLoading
                                  setMessages]; apply last_snoc].
  cbn [pending world]. unfold Session.handleSendMessage.
  cbn [inputText setInputText setIsLoading setMessages messages].
  rewrite Ht2, last_snoc. cbn [negb awaits text userMsg]. eexists.
  reflexivity.
Qed.

End Component.

Lemma narration_follows_flag_at_submit_witness :
  exists k1,
    awaits (Session.handleSendMessage [goSkill] browser answering)
    = [AwaitValidate "Q1" "I use goroutines" k1].
Proof.
  destruct (narration_follows_flag_at_submit [goSkill] browser answering
              firstQuestion) as (k1 & H & _).
  - reflexivity.
  - reflexivity.
  - exists k1. exact H.
Defined.

Lemma turn_adds_answer_and_question_witness :
  map role
    (messages
       (world
          (Session.run [goSkill] browser
             [ClickSend;
              Settle 0 (ValidationSettled (Fulfilled good));
              Settle 0 (QuestionSettled (Fulfilled "Q2"))]
             {| world := answering; pending := [] |})))
  = [ai; user; ai].
Proof.
  destruct (turn_adds_answer_and_question [goSkill] browser
              {| world := answering; pending := [] |} firstQuestion
              good "Q2") as (H & _).
  - reflexivity.
  - reflexivity.
  - reflexivity.
  - repeat constructor. discriminate.
  - cbn [pending length] in H. rewrite H. reflexivity.
Defined.

Lemma failed_evaluation_leaves_answer_last_witness :
  map role
    (messages
       (world
          (Session.run [goSkill] browser
             [ClickSend;
              Settle 0 (ValidationSettled (Rejected TypeError))]
             {| world := answering; pending := [] |})))
  = [ai; user].
Proof.
  destruct (failed_evaluation_leaves_answer_last [goSkill] browser
              {| world := answering; pending := [] |} firstQuestion
              TypeError "With channels") as (H & _).
  - reflexivity.
  - reflexivity.
  - reflexivity.
  - reflexivity.
  - cbn [pending length] in H. rewrite H. reflexivity.
Defined.

End TurnFacts.
